(** * Member name lookup (lib/Sema/NameLookup.cpp)

    A shallow embedding of [MemberLookup]: the dispatcher [doIt], the tuple
    field resolver [doTuple] and the expression builder [createResultAST],
    followed by the properties of the lookup that the design document states.

    Conventions of the embedding.
    - Types are taken in canonical form, so [getAs<X>] is a test on the head
      constructor.  [Type] is a reserved word here, the inductive is named
      after the C++ class behind the handle, [TypeBase].
    - The member vector [Results] is threaded explicitly: every function
      that pushes to it takes the vector and returns the new one.
    - [assert] is modelled as enabled: a failed assertion ends the call with
      [AssertFail]. *)

From Stdlib Require Import ZArith List String Ascii Bool Lia.
From Stdlib Require DecimalString DecimalNat.
Import ListNotations.

Local Open Scope string_scope.
Local Open Scope list_scope.
Local Open Scope Z_scope.

(* ================================================================= *)
(** ** Declarations *)

(** An [Identifier] is an interned string; two identifiers are equal when
    their spellings are. *)
Definition Identifier := string.

(** The dynamic class of a [ValueDecl], as far as [dyn_cast], [isa] and
    [cast] inspect it in this file. *)
Inductive DeclKind : Set :=
| FuncDecl (IsStatic : bool)
| VarDecl
| TypeDecl
| OneOfElementDecl.

(** A [ValueDecl*]: [DeclAddr] stands for the address of the node, so that
    two declarations with the same spelling stay distinct. *)
Record ValueDecl : Set := mkValueDecl {
  DeclAddr : nat;
  getName : Identifier;
  getDeclKind : DeclKind
}.

(** [dyn_cast<FuncDecl>(VD)] followed by [FD->isStatic()]. *)
Definition isStaticFunc (VD : ValueDecl) : bool :=
  match getDeclKind VD with
  | FuncDecl IsStatic => IsStatic
  | _ => false
  end.

Definition isaFuncDecl (VD : ValueDecl) : bool :=
  match getDeclKind VD with FuncDecl _ => true | _ => false end.

Definition isaVarDecl (VD : ValueDecl) : bool :=
  match getDeclKind VD with VarDecl => true | _ => false end.

Definition isaTypeDecl (VD : ValueDecl) : bool :=
  match getDeclKind VD with TypeDecl => true | _ => false end.

(* ================================================================= *)
(** ** Types *)

(** [LValueType::Qual] is a bit mask. *)
Definition Qual := Z.

(** The module named by a [ModuleType], seen through the one query this
    file makes on it: [lookupValue] with an empty access path and
    [NLKind::QualifiedLookup]. *)
Record ModuleRef : Type := mkModuleRef {
  lookupValue : Identifier -> list ValueDecl
}.

(** The shapes of type that the lookup tells apart.  [NamedTypeDecl] is the
    declaration behind a metatype, with its declared type; [OneOfDecl]
    carries the element constructors and, when [isTransparentType()] holds,
    the type returned by [getTransparentType()]. *)
Inductive TypeBase : Type :=
| LValueType (ObjectTy : TypeBase) (Quals : Qual)
| MetaTypeType (TheType : NamedTypeDecl)
| ModuleType (TheModule : ModuleRef)
| ProtocolType (Elements : list ValueDecl)
| TupleType (Fields : list TupleTypeElt)
| OneOfType (TheDecl : OneOfDecl)
| OtherType (Id : nat)
with NamedTypeDecl : Type :=
| mkNamedTypeDecl (DeclaredType : TypeBase)
with TupleTypeElt : Type :=
| mkTupleTypeElt (Name : Identifier) (Ty : TypeBase)
with OneOfDecl : Type :=
| mkOneOfDecl (Elements : list ValueDecl) (TransparentType : option TypeBase).

Definition getDeclaredType (TD : NamedTypeDecl) : TypeBase :=
  match TD with mkNamedTypeDecl T => T end.

Definition getFieldName (E : TupleTypeElt) : Identifier :=
  match E with mkTupleTypeElt N _ => N end.

Definition getFieldType (E : TupleTypeElt) : TypeBase :=
  match E with mkTupleTypeElt _ T => T end.

Definition getElements (D : OneOfDecl) : list ValueDecl :=
  match D with mkOneOfDecl Es _ => Es end.

Definition getTransparentType (D : OneOfDecl) : option TypeBase :=
  match D with mkOneOfDecl _ T => T end.

Definition isTransparentType (D : OneOfDecl) : bool :=
  match getTransparentType D with Some _ => true | None => false end.

(** Modelled from the spec: [OneOfDecl::getElement] is declared outside this
    file.  The type-value rule asks whether the sum type has a tag literally
    named [Name]; the first such element constructor is returned, and no
    match is the null pointer. *)
Definition getElement (D : OneOfDecl) (Name : Identifier) : option ValueDecl :=
  find (fun E => String.eqb (getName E) Name) (getElements D).

(** The module in whose context the lookup runs, seen through
    [lookupGlobalExtensionMethods]: the members that extensions visible
    from the module add to a type under a name, in the registry's order. *)
Record Module : Type := mkModule {
  lookupGlobalExtensionMethods : TypeBase -> Identifier -> list ValueDecl
}.

(* ================================================================= *)
(** ** Lookup results *)

Inductive KindTy : Set := KPassBase | KIgnoreBase | KStructElement | KTupleElement.

(** [MemberLookupResult]: a kind tag over the union of a declaration and a
    field number.  The two declaration forms carry [D], the two field forms
    carry [TupleFieldNo]. *)
Inductive MemberLookupResult : Set :=
| PassBase (D : ValueDecl)
| IgnoreBase (D : ValueDecl)
| StructElement (TupleFieldNo : Z)
| TupleElement (TupleFieldNo : Z).

Definition Kind (R : MemberLookupResult) : KindTy :=
  match R with
  | PassBase _ => KPassBase
  | IgnoreBase _ => KIgnoreBase
  | StructElement _ => KStructElement
  | TupleElement _ => KTupleElement
  end.

Definition getPassBase (D : ValueDecl) : MemberLookupResult := PassBase D.
Definition getIgnoreBase (D : ValueDecl) : MemberLookupResult := IgnoreBase D.
Definition getTupleElement (Elt : Z) (IsStruct : bool) : MemberLookupResult :=
  if IsStruct then StructElement Elt else TupleElement Elt.

Definition isIgnoreBase (R : MemberLookupResult) : bool :=
  match R with IgnoreBase _ => true | _ => false end.

Definition isFieldForm (R : MemberLookupResult) : bool :=
  match R with StructElement _ | TupleElement _ => true | _ => false end.

Definition isDeclForm (R : MemberLookupResult) : bool :=
  match R with PassBase _ | IgnoreBase _ => true | _ => false end.

(** [push_back]. *)
Definition push_back {A : Type} (V : list A) (x : A) : list A := V ++ [x].

(* ================================================================= *)
(** ** String to integer conversion *)

Definition wrap64 (z : Z) : Z := z mod 2 ^ 64.
Definition wrap32 (z : Z) : Z := z mod 2 ^ 32.

(** The digit value of one character, letters included, as the conversion
    loop computes [CharVal]; [None] is the loop's [return true]. *)
Definition charValue (c : ascii) : option Z :=
  let n := Z.of_nat (nat_of_ascii c) in
  if (48 <=? n) && (n <=? 57) then Some (n - 48)
  else if (97 <=? n) && (n <=? 122) then Some (n - 97 + 10)
  else if (65 <=? n) && (n <=? 90) then Some (n - 65 + 10)
  else None.

(** Modelled from the spec: [StringRef::getAsInteger] belongs to the LLVM
    support library, not to this file.  The spec has the digits parsed as a
    base-10 unsigned integer, a parse that can fail.  The definition follows
    the library routine: the value is accumulated in an [unsigned long long]
    whose multiplication wraps modulo 2^64, overflow is detected by dividing
    the new value back by the radix, and a character that is no digit of the
    radix is an error.  [None] stands for the routine's [true] (error). *)
Fixpoint parseDigits (Radix : Z) (Str : string) (Result : Z) : option Z :=
  match Str with
  | EmptyString => Some Result
  | String c Rest =>
      match charValue c with
      | None => None
      | Some CharVal =>
          if Radix <=? CharVal then None
          else
            let PrevResult := Result in
            let Result := wrap64 (Result * Radix + CharVal) in
            if Result / Radix <? PrevResult then None
            else parseDigits Radix Rest Result
      end
  end.

(** The empty string is an error; the radix is never zero at the one call
    of this file, so there is no radix detection. *)
Definition getAsUnsignedInteger (Str : string) (Radix : Z) : option Z :=
  match Str with
  | EmptyString => None
  | _ => parseDigits Radix Str 0
  end.

(** [getAsInteger(Radix, unsigned &)]: the 64-bit value must survive the
    narrowing to [unsigned]. *)
Definition getAsInteger (Str : string) (Radix : Z) : option Z :=
  match getAsUnsignedInteger Str Radix with
  | None => None
  | Some ULLVal => if wrap32 ULLVal =? ULLVal then Some ULLVal else None
  end.

(** [startswith("$")] and, on success, [substr(1)]. *)
Definition afterDollar (NameStr : string) : option string :=
  match NameStr with
  | String "$"%char Rest => Some Rest
  | _ => None
  end.

(* ================================================================= *)
(** ** Tuple fields *)

(** Modelled from the spec: [TupleType::getNamedElementId] is declared
    outside this file.  It gives the index of the field whose declared name
    equals the identifier, the first one in field order, and [-1] when the
    tuple has no such field. *)
Fixpoint getNamedElementIdFrom (Fields : list TupleTypeElt) (I : Identifier)
    (i : Z) : Z :=
  match Fields with
  | [] => -1
  | F :: Rest =>
      if String.eqb (getFieldName F) I then i
      else getNamedElementIdFrom Rest I (i + 1)
  end.

Definition getNamedElementId (Fields : list TupleTypeElt) (I : Identifier) : Z :=
  getNamedElementIdFrom Fields I 0.

(** [MemberLookup::doTuple], on the fields of [TT]. *)
Definition doTuple (Fields : list TupleTypeElt) (Name : Identifier)
    (IsStruct : bool) (Results : list MemberLookupResult)
    : list MemberLookupResult :=
  let FieldNo := getNamedElementId Fields Name in
  if negb (FieldNo =? -1) then
    push_back Results (getTupleElement FieldNo IsStruct)
  else
    match afterDollar Name with
    | Some Digits =>
        match getAsInteger Digits 10 with
        | Some Value =>
            if Value <? Z.of_nat (List.length Fields)
            then push_back Results (getTupleElement Value IsStruct)
            else Results
        | None => Results
        end
    | None => Results
    end.

(* ================================================================= *)
(** ** The dispatcher *)

(** The loop over the members of a protocol: [None] when the loop runs to
    its end, the pushed result when it returns from the first member with
    the name. *)
Fixpoint scanProtocol (Elements : list ValueDecl) (Name : Identifier)
    : option MemberLookupResult :=
  match Elements with
  | [] => None
  | VD :: Rest =>
      if negb (String.eqb (getName VD) Name) then scanProtocol Rest Name
      else if isStaticFunc VD then Some (getIgnoreBase VD)
      else Some (getPassBase VD)
  end.

(** The loop over the extension methods. *)
Definition classifyExtension (VD : ValueDecl) : MemberLookupResult :=
  if isaTypeDecl VD then getIgnoreBase VD
  else if isStaticFunc VD then getIgnoreBase VD
  else getPassBase VD.

Definition pushExtensions (ExtensionMethods : list ValueDecl)
    (Results : list MemberLookupResult) : list MemberLookupResult :=
  fold_left (fun Rs VD => push_back Rs (classifyExtension VD))
            ExtensionMethods Results.

(** The metatype loop that resets the kinds in place. *)
Definition resetKind (R : MemberLookupResult) : MemberLookupResult :=
  match R with
  | PassBase D => IgnoreBase D
  | IgnoreBase D => IgnoreBase D
  | StructElement n => StructElement n
  | TupleElement n => TupleElement n
  end.

Definition anyInvalid (Results : list MemberLookupResult) : bool :=
  existsb isFieldForm Results.

(** [erase(remove_if(..., Kind != IgnoreBase), end)]. *)
Definition eraseNotIgnoreBase (Results : list MemberLookupResult)
    : list MemberLookupResult :=
  filter isIgnoreBase Results.

Definition dropThis (Results : list MemberLookupResult)
    : list MemberLookupResult :=
  let AnyInvalid := anyInvalid Results in
  let Results := map resetKind Results in
  if AnyInvalid then eraseNotIgnoreBase Results else Results.

(** The part of [doIt] from the tuple check to the end, reached by every
    type that is neither a metatype nor a module nor a protocol with a
    member of the name. *)
Definition doFieldsAndExtensions (BaseTy : TypeBase) (Name : Identifier)
    (M : Module) (Results : list MemberLookupResult)
    : list MemberLookupResult :=
  let Results :=
    match BaseTy with
    | TupleType Fields => doTuple Fields Name false Results
    | _ => Results
    end in
  let Results :=
    match BaseTy with
    | OneOfType OneOf =>
        match getTransparentType OneOf with
        | Some (TupleType Fields) => doTuple Fields Name true Results
        | _ => Results
        end
    | _ => Results
    end in
  pushExtensions (lookupGlobalExtensionMethods M BaseTy Name) Results.

(** [MemberLookup::doIt]. *)
Fixpoint doIt (BaseTy : TypeBase) (Name : Identifier) (M : Module)
    (Results : list MemberLookupResult) {struct BaseTy}
    : list MemberLookupResult :=
  let BaseTy :=
    match BaseTy with
    | LValueType ObjectTy _ => ObjectTy
    | _ => BaseTy
    end in
  match BaseTy with
  | MetaTypeType MTT =>
      let Ty := getDeclaredType MTT in
      let Results :=
        match Ty with
        | OneOfType OOTy =>
            match getElement OOTy Name with
            | Some Elt => push_back Results (getIgnoreBase Elt)
            | None => Results
            end
        | _ => Results
        end in
      let Results := doIt Ty Name M Results in
      dropThis Results
  | ModuleType MT =>
      fold_left (fun Rs VD => push_back Rs (getIgnoreBase VD))
                (lookupValue MT Name) Results
  | ProtocolType Elements =>
      match scanProtocol Elements Name with
      | Some R => push_back Results R
      | None => doFieldsAndExtensions BaseTy Name M Results
      end
  | _ => doFieldsAndExtensions BaseTy Name M Results
  end.

(* ================================================================= *)
(** ** Expressions *)

(** A [SourceLoc] is valid when it points into a buffer. *)
Inductive SourceLoc : Set :=
| InvalidLoc
| ValidLoc (Pos : nat).

Definition isValid (L : SourceLoc) : bool :=
  match L with ValidLoc _ => true | InvalidLoc => false end.

(** The expression nodes this file builds, with the arguments of their
    [new (Context)] expressions.  [OpaqueExpr] is an expression built by the
    caller, of which the file reads the type only.  A [DeclRefExpr] is given
    [D->getTypeOfReference()] as its type, which is determined by [D] and
    left out. *)
Inductive Expr : Type :=
| OpaqueExpr (Id : nat) (Ty : TypeBase)
| LookThroughOneofExpr (SubExpr : Expr) (Ty : TypeBase)
| SyntacticTupleElementExpr (Base : Expr) (DotLoc : SourceLoc) (FieldNo : Z)
    (NameLoc : SourceLoc) (Ty : TypeBase)
| ImplicitThisTupleElementExpr (Base : Expr) (FieldNo : Z)
    (NameLoc : SourceLoc) (Ty : TypeBase)
| DeclRefExpr (D : ValueDecl) (Loc : SourceLoc)
| DotSyntaxCallExpr (Fn : Expr) (DotLoc : SourceLoc) (Base : Expr)
| MemberRefExpr (Base : Expr) (DotLoc : SourceLoc) (Var : ValueDecl)
    (NameLoc : SourceLoc)
| DotSyntaxBaseIgnoredExpr (LHS : Expr) (DotLoc : SourceLoc) (RHS : Expr)
| OverloadedMemberRefExpr (Base : Expr) (DotLoc : SourceLoc)
    (Decls : list ValueDecl) (MemberLoc : SourceLoc).

(** [E->getType()], for the nodes whose type this file supplies; the other
    nodes get their type from constructors defined elsewhere. *)
Definition getType (E : Expr) : option TypeBase :=
  match E with
  | OpaqueExpr _ Ty => Some Ty
  | LookThroughOneofExpr _ Ty => Some Ty
  | SyntacticTupleElementExpr _ _ _ _ Ty => Some Ty
  | ImplicitThisTupleElementExpr _ _ _ Ty => Some Ty
  | _ => None
  end.

(** How a call of the builder ends: with a value, in a failed assertion
    ([assert], [cast], [castTo], an index out of range), or outside what
    this file determines (the type of a node typed elsewhere is read). *)
Inductive Outcome (A : Type) : Type :=
| Done (a : A)
| AssertFail
| Undetermined.

Arguments Done {A} a.
Arguments AssertFail {A}.
Arguments Undetermined {A}.

Definition bind {A B : Type} (m : Outcome A) (k : A -> Outcome B) : Outcome B :=
  match m with
  | Done a => k a
  | AssertFail => AssertFail
  | Undetermined => Undetermined
  end.

Notation "x <- m ;; k" := (bind m (fun x => k))
  (at level 61, m at next level, right associativity).

Definition typeOf (E : Expr) : Outcome TypeBase :=
  match getType E with
  | Some Ty => Done Ty
  | None => Undetermined
  end.

(** [Fields[FieldIndex].getType()], the index checked against the size. *)
Definition getElementType (Fields : list TupleTypeElt) (FieldIndex : Z)
    : Outcome TypeBase :=
  if FieldIndex <? 0 then AssertFail
  else
    match nth_error Fields (Z.to_nat FieldIndex) with
    | Some F => Done (getFieldType F)
    | None => AssertFail
    end.

Section Synthesis.

(** The bit [LValueType::Qual::Implicit], whose value is fixed in the
    declaration of [Qual]. *)
Variable Implicit : Qual.

Definition makeSimilarLValue (objectType lvalueType : TypeBase)
    : Outcome TypeBase :=
  match lvalueType with
  | LValueType _ qs =>
      let qs := Z.lor qs Implicit in
      Done (LValueType objectType qs)
  | _ => AssertFail
  end.

Definition lookThroughOneofs (E : Expr) : Outcome Expr :=
  ETy <- typeOf E ;;
  let BaseType := ETy in
  let IsLValue := match ETy with LValueType _ _ => true | _ => false end in
  let BaseType :=
    match BaseType with
    | LValueType ObjectTy _ => ObjectTy
    | _ => BaseType
    end in
  match BaseType with
  | OneOfType Oneof =>
      match getTransparentType Oneof with
      | Some ResultType =>
          ResultType <- (if IsLValue then makeSimilarLValue ResultType ETy
                         else Done ResultType) ;;
          Done (LookThroughOneofExpr E ResultType)
      | None => AssertFail
      end
  | _ => AssertFail
  end.

Definition buildTupleElementExpr (Base : Expr) (DotLoc NameLoc : SourceLoc)
    (FieldIndex : Z) : Outcome Expr :=
  BaseTy0 <- typeOf Base ;;
  let IsLValue := match BaseTy0 with LValueType _ _ => true | _ => false end in
  let BaseTy :=
    match BaseTy0 with
    | LValueType ObjectTy _ => ObjectTy
    | _ => BaseTy0
    end in
  match BaseTy with
  | TupleType Fields =>
      FieldType <- getElementType Fields FieldIndex ;;
      FieldType <- (if IsLValue then makeSimilarLValue FieldType BaseTy0
                    else Done FieldType) ;;
      if isValid DotLoc then
        Done (SyntacticTupleElementExpr Base DotLoc FieldIndex NameLoc
                                        FieldType)
      else
        Done (ImplicitThisTupleElementExpr Base FieldIndex NameLoc FieldType)
  | _ => AssertFail
  end.

(** [isSuccess()]: something was found. *)
Definition isSuccess (Results : list MemberLookupResult) : bool :=
  negb (Nat.eqb (List.length Results) 0).

(** The loop that fills [ResultSet] for an overload set. *)
Fixpoint collectOverloads (Results : list MemberLookupResult)
    (ResultSet : list ValueDecl) : Outcome (list ValueDecl) :=
  match Results with
  | [] => Done ResultSet
  | X :: Rest =>
      match X with
      | PassBase D | IgnoreBase D =>
          collectOverloads Rest (push_back ResultSet D)
      | TupleElement _ | StructElement _ => AssertFail
      end
  end.

(** [MemberLookup::createResultAST]. *)
Definition createResultAST (Results : list MemberLookupResult) (Base : Expr)
    (DotLoc NameLoc : SourceLoc) : Outcome Expr :=
  if negb (isSuccess Results) then AssertFail
  else
    match Results with
    | [R] =>
        match R with
        | StructElement TupleFieldNo =>
            Base <- lookThroughOneofs Base ;;
            buildTupleElementExpr Base DotLoc NameLoc TupleFieldNo
        | TupleElement TupleFieldNo =>
            buildTupleElementExpr Base DotLoc NameLoc TupleFieldNo
        | PassBase D =>
            if isaFuncDecl D then
              let Fn := DeclRefExpr D NameLoc in
              Done (DotSyntaxCallExpr Fn DotLoc Base)
            else if isaVarDecl D then
              Done (MemberRefExpr Base DotLoc D NameLoc)
            else AssertFail
        | IgnoreBase D =>
            let RHS := DeclRefExpr D NameLoc in
            Done (DotSyntaxBaseIgnoredExpr Base DotLoc RHS)
        end
    | _ =>
        ResultSet <- collectOverloads Results [] ;;
        Done (OverloadedMemberRefExpr Base DotLoc ResultSet NameLoc)
    end.

End Synthesis.

(** [MemberLookup::MemberLookup]: the constructor runs the lookup on an
    empty vector. *)
Definition MemberLookup (BaseTy : TypeBase) (Name : Identifier) (M : Module)
    : list MemberLookupResult :=
  doIt BaseTy Name M [].

(* ================================================================= *)
(** ** Reference definitions, after the wording of the design document *)

(** A decimal digit. *)
Definition isDecimalDigit (c : ascii) : bool :=
  let n := Z.of_nat (nat_of_ascii c) in
  (48 <=? n) && (n <=? 57).

Fixpoint allDecimalDigits (s : string) : bool :=
  match s with
  | EmptyString => true
  | String c Rest => isDecimalDigit c && allDecimalDigits Rest
  end.

(** The number that a string of decimal digits denotes, without any bound,
    read after the digits already summed up in [acc]. *)
Fixpoint decimalValueFrom (s : string) (acc : Z) : Z :=
  match s with
  | EmptyString => acc
  | String c Rest =>
      decimalValueFrom Rest (acc * 10 + (Z.of_nat (nat_of_ascii c) - 48))
  end.

Definition decimalValue (s : string) : Z := decimalValueFrom s 0.

(** Parsing as a base-10 unsigned integer succeeds on a non-empty string of
    digits whose number fits the 32-bit [unsigned]. *)
Definition parseUnsigned_spec (s : string) : option Z :=
  match s with
  | EmptyString => None
  | _ =>
      if allDecimalDigits s && (decimalValue s <? 2 ^ 32)
      then Some (decimalValue s) else None
  end.

(** The index of the first field with the name. *)
Fixpoint firstFieldNamed (Fields : list TupleTypeElt) (Name : Identifier)
    : option nat :=
  match Fields with
  | [] => None
  | F :: Rest =>
      if String.eqb (getFieldName F) Name then Some O
      else option_map S (firstFieldNamed Rest Name)
  end.

(** The field resolver of the design document: the named field if there is
    one, else the position written as a dollar sign and digits, if it parses
    and is below the field count. *)
Definition resolveField_spec (Fields : list TupleTypeElt) (Name : Identifier)
    (Wrapped : bool) : option MemberLookupResult :=
  match firstFieldNamed Fields Name with
  | Some i => Some (getTupleElement (Z.of_nat i) Wrapped)
  | None =>
      match Name with
      | String "$"%char Digits =>
          match parseUnsigned_spec Digits with
          | Some v =>
              if v <? Z.of_nat (List.length Fields)
              then Some (getTupleElement v Wrapped) else None
          | None => None
          end
      | _ => None
      end
  end.

Definition optionToList {A : Type} (o : option A) : list A :=
  match o with Some a => [a] | None => [] end.

(** The post-filter of the type-value rule, candidate by candidate: a
    candidate that uses the receiver comes to ignore it, a field candidate
    is dropped. *)
Definition typeValueFilter_spec (Rs : list MemberLookupResult)
    : list MemberLookupResult :=
  flat_map (fun R =>
              match R with
              | PassBase D => [IgnoreBase D]
              | IgnoreBase D => [IgnoreBase D]
              | StructElement _ | TupleElement _ => []
              end) Rs.

(** The candidate for the case constructor named [Name], looked up on the
    declared type as it stands. *)
Definition constructorCandidate (Ty : TypeBase) (Name : Identifier)
    : list MemberLookupResult :=
  match Ty with
  | OneOfType OOTy =>
      match getElement OOTy Name with
      | Some Elt => [IgnoreBase Elt]
      | None => []
      end
  | _ => []
  end.

(** The base type once a reference wrapper is looked through. *)
Definition stripLValue (BaseTy : TypeBase) : TypeBase :=
  match BaseTy with
  | LValueType ObjectTy _ => ObjectTy
  | _ => BaseTy
  end.

Definition isLValueType (T : TypeBase) : bool :=
  match T with LValueType _ _ => true | _ => false end.

Definition isMetaTypeType (T : TypeBase) : bool :=
  match T with MetaTypeType _ => true | _ => false end.

(** The field candidate that a type contributes: a tuple its own field, a
    transparent oneof over a tuple the field of the tuple inside. *)
Definition fieldCandidates (BaseTy : TypeBase) (Name : Identifier)
    : list MemberLookupResult :=
  match BaseTy with
  | TupleType Fields => optionToList (resolveField_spec Fields Name false)
  | OneOfType OneOf =>
      match getTransparentType OneOf with
      | Some (TupleType Fields) =>
          optionToList (resolveField_spec Fields Name true)
      | _ => []
      end
  | _ => []
  end.

(** The candidates of the extension members registered for a type. *)
Definition extensionCandidates (BaseTy : TypeBase) (Name : Identifier)
    (M : Module) : list MemberLookupResult :=
  map classifyExtension (lookupGlobalExtensionMethods M BaseTy Name).

(** A candidate list that [createResultAST] accepts past its assertions on
    the kinds: one candidate of any form, or two or more that all carry a
    declaration. *)
Definition wellFormedResults (Rs : list MemberLookupResult) : bool :=
  match Rs with
  | [] => false
  | [_] => true
  | _ => forallb isDeclForm Rs
  end.

(* ================================================================= *)
(** ** The string conversion computes the decimal value *)

Lemma charValue_digit c :
  isDecimalDigit c = true ->
  charValue c = Some (Z.of_nat (nat_of_ascii c) - 48) /\
  0 <= Z.of_nat (nat_of_ascii c) - 48 <= 9.
Proof.
  unfold isDecimalDigit, charValue. cbv zeta.
  intros H. rewrite H. split; [reflexivity|].
  apply andb_true_iff in H. destruct H as [H1 H2].
  apply Z.leb_le in H1. apply Z.leb_le in H2. lia.
Qed.

Lemma charValue_not_digit c :
  isDecimalDigit c = false ->
  match charValue c with
  | Some v => 10 <= v
  | None => True
  end.
Proof.
  unfold isDecimalDigit, charValue. cbv zeta.
  intros H. rewrite H.
  destruct ((97 <=? Z.of_nat (nat_of_ascii c)) &&
            (Z.of_nat (nat_of_ascii c) <=? 122)) eqn:E1.
  - apply andb_true_iff in E1. destruct E1 as [E1 _].
    apply Z.leb_le in E1. lia.
  - destruct ((65 <=? Z.of_nat (nat_of_ascii c)) &&
              (Z.of_nat (nat_of_ascii c) <=? 90)) eqn:E2; [|exact I].
    apply andb_true_iff in E2. destruct E2 as [E2 _].
    apply Z.leb_le in E2. lia.
Qed.

Lemma decimalValueFrom_ge s :
  allDecimalDigits s = true ->
  forall acc, 0 <= acc -> acc <= decimalValueFrom s acc.
Proof.
  induction s as [|c s IH]; cbn [decimalValueFrom allDecimalDigits];
    intros Hd acc Hacc; [lia|].
  apply andb_true_iff in Hd. destruct Hd as [Hc Hs].
  destruct (charValue_digit c Hc) as [_ Hr].
  specialize (IH Hs (acc * 10 + (Z.of_nat (nat_of_ascii c) - 48))).
  lia.
Qed.

Lemma wrap64_small z : 0 <= z < 2 ^ 64 -> wrap64 z = z.
Proof. intros H. unfold wrap64. apply Z.mod_small. exact H. Qed.

Lemma wrap64_range z : 0 <= wrap64 z < 2 ^ 64.
Proof. unfold wrap64. apply Z.mod_pos_bound. lia. Qed.

(** When the product leaves 64 bits, dividing the wrapped value back gives
    less than the previous value: the overflow test of the loop fires. *)
Lemma wrap64_overflow_detected acc d :
  0 <= acc < 2 ^ 64 -> 0 <= d <= 9 -> 2 ^ 64 <= acc * 10 + d ->
  wrap64 (acc * 10 + d) / 10 < acc.
Proof.
  intros Hacc Hd Hov.
  apply Z.div_lt_upper_bound; [lia|].
  unfold wrap64.
  pose proof (Z.div_mod (acc * 10 + d) (2 ^ 64) ltac:(lia)) as E.
  assert (1 <= (acc * 10 + d) / 2 ^ 64)
    by (apply Z.div_le_lower_bound; lia).
  lia.
Qed.

Lemma parseDigits_decimal s :
  allDecimalDigits s = true ->
  forall acc, 0 <= acc < 2 ^ 64 ->
  parseDigits 10 s acc =
  if decimalValueFrom s acc <? 2 ^ 64 then Some (decimalValueFrom s acc)
  else None.
Proof.
  induction s as [|c s IH];
    cbn [parseDigits decimalValueFrom allDecimalDigits]; intros Hd acc Hacc.
  - destruct (Z.ltb_spec acc (2 ^ 64)); [reflexivity | lia].
  - apply andb_true_iff in Hd. destruct Hd as [Hc Hs].
    destruct (charValue_digit c Hc) as [-> Hr].
    set (d := Z.of_nat (nat_of_ascii c) - 48) in *.
    destruct (Z.leb_spec 10 d); [lia|].
    destruct (Z_lt_le_dec (acc * 10 + d) (2 ^ 64)) as [Hfit | Hov].
    + rewrite wrap64_small by lia.
      replace ((acc * 10 + d) / 10) with acc
        by (apply Z.div_unique with (r := d); lia).
      rewrite Z.ltb_irrefl. apply IH; [exact Hs | lia].
    + pose proof (wrap64_overflow_detected acc d Hacc Hr Hov) as Hlt.
      apply Z.ltb_lt in Hlt. rewrite Hlt.
      pose proof (decimalValueFrom_ge s Hs (acc * 10 + d) ltac:(lia)).
      destruct (Z.ltb_spec (decimalValueFrom s (acc * 10 + d)) (2 ^ 64));
        [lia | reflexivity].
Qed.

Lemma parseDigits_malformed s :
  allDecimalDigits s = false ->
  forall acc, parseDigits 10 s acc = None.
Proof.
  induction s as [|c s IH]; cbn [parseDigits allDecimalDigits];
    intros Hd acc; [discriminate|].
  destruct (isDecimalDigit c) eqn:Hc; cbn [andb] in Hd.
  - destruct (charValue c) as [v|]; [|reflexivity].
    destruct (10 <=? v); [reflexivity|].
    destruct (wrap64 (acc * 10 + v) / 10 <? acc); [reflexivity|].
    apply IH. exact Hd.
  - pose proof (charValue_not_digit c Hc) as Hv.
    destruct (charValue c) as [v|]; [|reflexivity].
    destruct (Z.leb_spec 10 v); [reflexivity | lia].
Qed.

(** [getAsInteger] in radix 10 is the parse of the design document. *)
Lemma getAsInteger_decimal s : getAsInteger s 10 = parseUnsigned_spec s.
Proof.
  unfold getAsInteger, getAsUnsignedInteger, parseUnsigned_spec, decimalValue.
  destruct s as [|c s]; [reflexivity|].
  set (str := String c s).
  destruct (allDecimalDigits str) eqn:Hd.
  - rewrite (parseDigits_decimal str Hd 0) by lia.
    pose proof (decimalValueFrom_ge str Hd 0 ltac:(lia)) as Hge.
    set (v := decimalValueFrom str 0) in *.
    unfold wrap32. cbn [andb].
    destruct (Z.ltb_spec v (2 ^ 64)).
    + destruct (Z.ltb_spec v (2 ^ 32)).
      * rewrite Z.mod_small by lia. rewrite Z.eqb_refl. reflexivity.
      * pose proof (Z.mod_pos_bound v (2 ^ 32) ltac:(lia)).
        destruct (Z.eqb_spec (v mod 2 ^ 32) v); [lia | reflexivity].
    + destruct (Z.ltb_spec v (2 ^ 32)); [lia | reflexivity].
  - rewrite (parseDigits_malformed str Hd 0). reflexivity.
Qed.

(** Older releases of the library test [Result < PrevResult] in place of
    the division.  That test lets some wrapped values through, but none of
    them survives the narrowing to 32 bits: the conversion to [unsigned] is
    the same function with either test. *)
Fixpoint parseDigitsOlder (Radix : Z) (Str : string) (Result : Z) : option Z :=
  match Str with
  | EmptyString => Some Result
  | String c Rest =>
      match charValue c with
      | None => None
      | Some CharVal =>
          if Radix <=? CharVal then None
          else
            let PrevResult := Result in
            let Result := wrap64 (Result * Radix + CharVal) in
            if Result <? PrevResult then None
            else parseDigitsOlder Radix Rest Result
      end
  end.

Definition getAsIntegerOlder (Str : string) (Radix : Z) : option Z :=
  match Str with
  | EmptyString => None
  | _ =>
      match parseDigitsOlder Radix Str 0 with
      | None => None
      | Some ULLVal => if wrap32 ULLVal =? ULLVal then Some ULLVal else None
      end
  end.

Lemma parseDigitsOlder_exact s :
  allDecimalDigits s = true ->
  forall acc, 0 <= acc < 2 ^ 64 -> decimalValueFrom s acc < 2 ^ 64 ->
  parseDigitsOlder 10 s acc = Some (decimalValueFrom s acc).
Proof.
  induction s as [|c s IH];
    cbn [parseDigitsOlder decimalValueFrom allDecimalDigits];
    intros Hd acc Hacc Hfit; [reflexivity|].
  apply andb_true_iff in Hd. destruct Hd as [Hc Hs].
  destruct (charValue_digit c Hc) as [-> Hr].
  set (d := Z.of_nat (nat_of_ascii c) - 48) in *.
  destruct (Z.leb_spec 10 d); [lia|].
  pose proof (decimalValueFrom_ge s Hs (acc * 10 + d) ltac:(lia)).
  rewrite wrap64_small by lia.
  destruct (Z.ltb_spec (acc * 10 + d) acc); [lia|].
  apply IH; [exact Hs | lia | exact Hfit].
Qed.

Lemma parseDigitsOlder_small s :
  allDecimalDigits s = true ->
  forall acc r, 0 <= acc < 2 ^ 64 ->
  parseDigitsOlder 10 s acc = Some r ->
  acc <= r /\ (r < 2 ^ 32 -> r = decimalValueFrom s acc).
Proof.
  induction s as [|c s IH];
    cbn [parseDigitsOlder decimalValueFrom allDecimalDigits];
    intros Hd acc r Hacc Hr'.
  - injection Hr' as <-. split; [lia | reflexivity].
  - apply andb_true_iff in Hd. destruct Hd as [Hc Hs].
    destruct (charValue_digit c Hc) as [E Hr]. rewrite E in Hr'.
    set (d := Z.of_nat (nat_of_ascii c) - 48) in *.
    destruct (Z.leb_spec 10 d); [lia|].
    destruct (Z.ltb_spec (wrap64 (acc * 10 + d)) acc); [discriminate|].
    destruct (IH Hs _ r (wrap64_range _) Hr') as [Hle Hval].
    split; [lia|].
    intros Hsmall. rewrite wrap64_small in Hval by lia. apply Hval, Hsmall.
Qed.

Lemma getAsIntegerOlder_decimal s :
  getAsIntegerOlder s 10 = parseUnsigned_spec s.
Proof.
  unfold getAsIntegerOlder, parseUnsigned_spec, decimalValue.
  destruct s as [|c s]; [reflexivity|].
  set (str := String c s).
  destruct (allDecimalDigits str) eqn:Hd; cbn [andb].
  - pose proof (decimalValueFrom_ge str Hd 0 ltac:(lia)) as Hge.
    destruct (Z.ltb_spec (decimalValueFrom str 0) (2 ^ 32)) as [Hlt | Hge32].
    + rewrite (parseDigitsOlder_exact str Hd 0) by lia.
      unfold wrap32. rewrite Z.mod_small by lia.
      rewrite Z.eqb_refl. reflexivity.
    + destruct (parseDigitsOlder 10 str 0) as [r|] eqn:E; [|reflexivity].
      destruct (parseDigitsOlder_small str Hd 0 r ltac:(lia) E) as [Hr Hval].
      unfold wrap32.
      pose proof (Z.mod_pos_bound r (2 ^ 32) ltac:(lia)).
      destruct (Z.eqb_spec (r mod 2 ^ 32) r) as [Heq | ]; [|reflexivity].
      assert (r < 2 ^ 32) by lia. specialize (Hval H0). lia.
  - assert (Hnone : forall t acc, allDecimalDigits t = false ->
                      parseDigitsOlder 10 t acc = None).
    { induction t as [|c' t IH]; cbn [parseDigitsOlder allDecimalDigits];
        intros acc Ht; [discriminate|].
      destruct (isDecimalDigit c') eqn:Hc; cbn [andb] in Ht.
      - destruct (charValue c') as [v|]; [|reflexivity].
        destruct (10 <=? v); [reflexivity|].
        destruct (wrap64 (acc * 10 + v) <? acc); [reflexivity|].
        apply IH. exact Ht.
      - pose proof (charValue_not_digit c' Hc) as Hv.
        destruct (charValue c') as [v|]; [|reflexivity].
        destruct (Z.leb_spec 10 v); [reflexivity | lia]. }
    rewrite (Hnone str 0 Hd). reflexivity.
Qed.

(* ================================================================= *)
(** ** The field resolver *)

Lemma getNamedElementIdFrom_first Fields I :
  forall i, 0 <= i ->
  getNamedElementIdFrom Fields I i =
  match firstFieldNamed Fields I with
  | Some k => i + Z.of_nat k
  | None => -1
  end.
Proof.
  induction Fields as [|F Rest IH]; cbn [getNamedElementIdFrom firstFieldNamed];
    intros i Hi; [reflexivity|].
  destruct (String.eqb (getFieldName F) I); [cbn; lia|].
  rewrite IH by lia.
  destruct (firstFieldNamed Rest I) as [k|]; cbn [option_map]; lia.
Qed.

Lemma afterDollar_cases Name :
  afterDollar Name =
  match Name with
  | String c Rest => if Ascii.eqb c "$"%char then Some Rest else None
  | EmptyString => None
  end.
Proof.
  destruct Name as [|c Rest]; [reflexivity|].
  destruct c as [[] [] [] [] [] [] [] []]; reflexivity.
Qed.

Lemma resolveField_spec_cases Fields Name Wrapped :
  resolveField_spec Fields Name Wrapped =
  match firstFieldNamed Fields Name with
  | Some i => Some (getTupleElement (Z.of_nat i) Wrapped)
  | None =>
      match afterDollar Name with
      | Some Digits =>
          match parseUnsigned_spec Digits with
          | Some v =>
              if v <? Z.of_nat (List.length Fields)
              then Some (getTupleElement v Wrapped) else None
          | None => None
          end
      | None => None
      end
  end.
Proof.
  unfold resolveField_spec.
  destruct (firstFieldNamed Fields Name); [reflexivity|].
  destruct Name as [|c Rest]; [reflexivity|].
  destruct c as [[] [] [] [] [] [] [] []]; reflexivity.
Qed.

Lemma doTuple_refines Fields Name IsStruct Results :
  doTuple Fields Name IsStruct Results =
  Results ++ optionToList (resolveField_spec Fields Name IsStruct).
Proof.
  rewrite resolveField_spec_cases.
  unfold doTuple, getNamedElementId, push_back.
  rewrite getNamedElementIdFrom_first by lia.
  destruct (firstFieldNamed Fields Name) as [k|].
  - destruct (Z.eqb_spec (0 + Z.of_nat k) (-1)); [lia|].
    cbn [negb optionToList]. reflexivity.
  - cbn [Z.eqb negb].
    destruct (afterDollar Name) as [Digits|];
      [|cbn [optionToList]; symmetry; apply app_nil_r].
    rewrite getAsInteger_decimal.
    destruct (parseUnsigned_spec Digits) as [v|];
      [|cbn [optionToList]; symmetry; apply app_nil_r].
    destruct (v <? Z.of_nat (List.length Fields)); cbn [optionToList];
      [reflexivity | symmetry; apply app_nil_r].
Qed.

(** C5. [doTuple] adds to the results what the field resolver of the design
    document returns: the index of the first field declared under the name
    if there is one; otherwise, for a name made of a dollar sign and decimal
    digits, the field at the number the digits denote, when that number fits
    an unsigned integer and is below the field count; otherwise nothing.  On
    a tuple of three unnamed fields the name $2 gives the field 2, and the
    names $9 (out of range) and $abc (malformed) give no candidate. *)
Theorem doTuple_field_resolution :
  forall (Fields : list TupleTypeElt) (Name : Identifier) (IsStruct : bool)
         (Results : list MemberLookupResult) (T0 T1 T2 : TypeBase),
    doTuple Fields Name IsStruct Results =
      Results ++ optionToList (resolveField_spec Fields Name IsStruct)
    /\ (let Three := [mkTupleTypeElt "" T0; mkTupleTypeElt "" T1;
                      mkTupleTypeElt "" T2] in
        doTuple Three "$2" false [] = [TupleElement 2]
        /\ doTuple Three "$9" false [] = []
        /\ doTuple Three "$abc" false [] = []).
Proof.
  intros. split; [apply doTuple_refines|].
  cbv zeta. repeat split; reflexivity.
Qed.

(** C9. When the digits after the dollar sign denote a number that does not
    fit the 32-bit unsigned integer, the conversion reports an error, however
    the 64-bit accumulator wraps, and a tuple with no field declared under
    the name gets no candidate: the results are left as they were. *)
Theorem doTuple_overflow_no_candidate :
  forall (Fields : list TupleTypeElt) (Digits : string) (IsStruct : bool)
         (Results : list MemberLookupResult),
    allDecimalDigits Digits = true ->
    2 ^ 32 <= decimalValue Digits ->
    firstFieldNamed Fields (String "$" Digits) = None ->
    getAsInteger Digits 10 = None
    /\ doTuple Fields (String "$" Digits) IsStruct Results = Results.
Proof.
  intros Fields Digits IsStruct Results Hd Hov Hnone.
  assert (Hparse : parseUnsigned_spec Digits = None).
  { unfold parseUnsigned_spec. destruct Digits as [|c s]; [reflexivity|].
    rewrite Hd. cbn [andb].
    destruct (Z.ltb_spec (decimalValue (String c s)) (2 ^ 32));
      [lia | reflexivity]. }
  split; [rewrite getAsInteger_decimal; exact Hparse|].
  rewrite doTuple_refines, resolveField_spec_cases, Hnone.
  rewrite afterDollar_cases. cbn [Ascii.eqb Bool.eqb].
  rewrite Hparse. cbn [optionToList]. apply app_nil_r.
Qed.

(** The numbers 2^32 and 2^64 + 1, which wrap to the indices 0 and 1 in 32
    and in 64 bits, select no field of a two-field tuple. *)
Lemma doTuple_overflow_no_candidate_witness :
  (getAsInteger "4294967296" 10 = None
   /\ doTuple [mkTupleTypeElt "" (OtherType 0); mkTupleTypeElt "" (OtherType 1)]
              "$4294967296" false [] = [])
  /\ (getAsInteger "18446744073709551617" 10 = None
      /\ doTuple [mkTupleTypeElt "" (OtherType 0);
                  mkTupleTypeElt "" (OtherType 1)]
                 "$18446744073709551617" true [] = []).
Proof.
  split.
  - apply (doTuple_overflow_no_candidate
             [mkTupleTypeElt "" (OtherType 0); mkTupleTypeElt "" (OtherType 1)]
             "4294967296" false []);
      [reflexivity | vm_compute; discriminate | reflexivity].
  - apply (doTuple_overflow_no_candidate
             [mkTupleTypeElt "" (OtherType 0); mkTupleTypeElt "" (OtherType 1)]
             "18446744073709551617" true []);
      [reflexivity | vm_compute; discriminate | reflexivity].
Defined.

(* ================================================================= *)
(** ** The dispatcher, shape by shape *)

#[warnings="-register-all"]
Scheme TypeBase_mut := Induction for TypeBase Sort Prop
  with NamedTypeDecl_mut := Induction for NamedTypeDecl Sort Prop
  with TupleTypeElt_mut := Induction for TupleTypeElt Sort Prop
  with OneOfDecl_mut := Induction for OneOfDecl Sort Prop.

Lemma filter_reset_spec Rs :
  filter isIgnoreBase (map resetKind Rs) = typeValueFilter_spec Rs.
Proof.
  induction Rs as [|R Rs IH]; [reflexivity|].
  destruct R; cbn [map resetKind filter isIgnoreBase typeValueFilter_spec
                   flat_map app];
    fold (typeValueFilter_spec Rs); rewrite IH; reflexivity.
Qed.

Lemma reset_spec_when_valid Rs :
  anyInvalid Rs = false -> map resetKind Rs = typeValueFilter_spec Rs.
Proof.
  unfold anyInvalid.
  induction Rs as [|R Rs IH]; [reflexivity|].
  cbn [existsb]. intros H. apply orb_false_iff in H. destruct H as [HR HRs].
  destruct R; try discriminate;
    cbn [map resetKind typeValueFilter_spec flat_map app];
    fold (typeValueFilter_spec Rs); rewrite IH by exact HRs; reflexivity.
Qed.

(** The in-place loop and the conditional erase together act candidate by
    candidate. *)
Lemma dropThis_spec Rs : dropThis Rs = typeValueFilter_spec Rs.
Proof.
  unfold dropThis, eraseNotIgnoreBase.
  destruct (anyInvalid Rs) eqn:E.
  - apply filter_reset_spec.
  - apply reset_spec_when_valid. exact E.
Qed.

Lemma typeValueFilter_spec_app Rs Ss :
  typeValueFilter_spec (Rs ++ Ss) =
  typeValueFilter_spec Rs ++ typeValueFilter_spec Ss.
Proof. unfold typeValueFilter_spec. apply flat_map_app. Qed.

Lemma typeValueFilter_spec_ignored Rs :
  forallb isIgnoreBase Rs = true -> typeValueFilter_spec Rs = Rs.
Proof.
  induction Rs as [|R Rs IH]; [reflexivity|].
  cbn [forallb]. intros H. apply andb_true_iff in H. destruct H as [HR HRs].
  destruct R; try discriminate.
  cbn [typeValueFilter_spec flat_map app]. fold (typeValueFilter_spec Rs).
  rewrite IH by exact HRs. reflexivity.
Qed.

Lemma typeValueFilter_spec_all_ignored Rs :
  forallb isIgnoreBase (typeValueFilter_spec Rs) = true.
Proof.
  induction Rs as [|R Rs IH]; [reflexivity|].
  destruct R; cbn [typeValueFilter_spec flat_map app forallb isIgnoreBase andb];
    exact IH.
Qed.

Lemma constructorCandidate_ignored Ty Name :
  forallb isIgnoreBase (constructorCandidate Ty Name) = true.
Proof.
  unfold constructorCandidate.
  destruct Ty; try reflexivity.
  destruct (getElement TheDecl Name); reflexivity.
Qed.

Lemma fold_push_back {A B : Type} (f : A -> B) (xs : list A) :
  forall Rs, fold_left (fun Rs x => push_back Rs (f x)) xs Rs = Rs ++ map f xs.
Proof.
  induction xs as [|x xs IH]; intros Rs; cbn [fold_left map].
  - symmetry. apply app_nil_r.
  - rewrite IH. unfold push_back. rewrite <- app_assoc. reflexivity.
Qed.

Lemma doFieldsAndExtensions_app BaseTy Name M Results :
  doFieldsAndExtensions BaseTy Name M Results =
  Results ++ fieldCandidates BaseTy Name ++ extensionCandidates BaseTy Name M.
Proof.
  unfold doFieldsAndExtensions, pushExtensions, extensionCandidates.
  rewrite fold_push_back.
  destruct BaseTy as [ | | | | Fields | OneOf | ]; cbn [fieldCandidates app];
    try reflexivity.
  - rewrite doTuple_refines, <- app_assoc. reflexivity.
  - destruct (getTransparentType OneOf) as [[ | | | | Fields | | ]|];
      cbn [app]; try reflexivity.
    rewrite doTuple_refines, <- app_assoc. reflexivity.
Qed.

(** One step of [doIt], with the reference wrapper already looked through. *)
Definition doItStep (BaseTy : TypeBase) (Name : Identifier) (M : Module)
    (Results : list MemberLookupResult) : list MemberLookupResult :=
  match BaseTy with
  | MetaTypeType MTT =>
      let Ty := getDeclaredType MTT in
      dropThis (doIt Ty Name M (Results ++ constructorCandidate Ty Name))
  | ModuleType MT => Results ++ map IgnoreBase (lookupValue MT Name)
  | ProtocolType Elements =>
      match scanProtocol Elements Name with
      | Some R => Results ++ [R]
      | None => doFieldsAndExtensions BaseTy Name M Results
      end
  | _ => doFieldsAndExtensions BaseTy Name M Results
  end.

Lemma constructor_push Ty Name Results :
  match Ty with
  | OneOfType OOTy =>
      match getElement OOTy Name with
      | Some Elt => push_back Results (getIgnoreBase Elt)
      | None => Results
      end
  | _ => Results
  end = Results ++ constructorCandidate Ty Name.
Proof.
  unfold constructorCandidate.
  destruct Ty; try (symmetry; apply app_nil_r).
  destruct (getElement TheDecl Name);
    [reflexivity | symmetry; apply app_nil_r].
Qed.

Lemma doIt_step BaseTy Name M Results :
  doIt BaseTy Name M Results = doItStep (stripLValue BaseTy) Name M Results.
Proof.
  assert (Hmeta : forall MTT,
    doIt (MetaTypeType MTT) Name M Results =
    doItStep (MetaTypeType MTT) Name M Results).
  { intros MTT. cbn [doIt doItStep]. rewrite constructor_push. reflexivity. }
  assert (Hmod : forall MT,
    doIt (ModuleType MT) Name M Results =
    doItStep (ModuleType MT) Name M Results).
  { intros MT. cbn [doIt doItStep].
    apply (fold_push_back IgnoreBase). }
  assert (Hproto : forall Es,
    doIt (ProtocolType Es) Name M Results =
    doItStep (ProtocolType Es) Name M Results).
  { intros Es. cbn [doIt doItStep]. reflexivity. }
  destruct BaseTy as [Obj q | | | | | | ]; cbn [stripLValue];
    auto; try reflexivity.
  destruct Obj; auto; try reflexivity.
  - cbn [doIt doItStep]. rewrite constructor_push. reflexivity.
  - cbn [doIt doItStep]. apply (fold_push_back IgnoreBase).
Qed.

(** Results that are already in the vector and ignore the base pass
    through one step unchanged, if they do so through the recursive call. *)
Lemma doItStep_appends Name M T :
  (forall MTT, T = MetaTypeType MTT ->
     forall Rs, forallb isIgnoreBase Rs = true ->
       doIt (getDeclaredType MTT) Name M Rs =
       Rs ++ doIt (getDeclaredType MTT) Name M []) ->
  forall Rs, forallb isIgnoreBase Rs = true ->
    doItStep T Name M Rs = Rs ++ doItStep T Name M [].
Proof.
  intros IH Rs HRs.
  destruct T as [Obj q | MTT | MT | Es | Fields | OneOf | n];
    cbn [doItStep];
    try (rewrite (doFieldsAndExtensions_app _ Name M Rs),
                 (doFieldsAndExtensions_app _ Name M []); reflexivity).
  - specialize (IH MTT eq_refl).
    cbn [app].
    rewrite (IH (Rs ++ _)), (IH (constructorCandidate _ _)).
    + rewrite !dropThis_spec, !typeValueFilter_spec_app.
      rewrite (typeValueFilter_spec_ignored Rs HRs).
      rewrite <- app_assoc. reflexivity.
    + apply constructorCandidate_ignored.
    + rewrite forallb_app, HRs. apply constructorCandidate_ignored.
  - reflexivity.
  - destruct (scanProtocol Es Name); [reflexivity|].
    rewrite (doFieldsAndExtensions_app _ Name M Rs),
            (doFieldsAndExtensions_app _ Name M []). reflexivity.
Qed.

Definition appendsOnly (Name : Identifier) (M : Module) (T : TypeBase) : Prop :=
  forall Rs, forallb isIgnoreBase Rs = true ->
    doItStep T Name M Rs = Rs ++ doItStep T Name M []
    /\ doIt T Name M Rs = Rs ++ doIt T Name M [].

Lemma doIt_appendsOnly Name M : forall BaseTy, appendsOnly Name M BaseTy.
Proof.
  intros BaseTy.
  induction BaseTy using TypeBase_mut with
    (P0 := fun TD => appendsOnly Name M (getDeclaredType TD))
    (P1 := fun _ => True)
    (P2 := fun _ => True);
    try exact I; try exact IHBaseTy.
  - (* LValueType *)
    intros Rs HRs. split.
    + apply doItStep_appends; [discriminate | exact HRs].
    + rewrite (doIt_step _ Name M Rs), (doIt_step _ Name M []).
      cbn [stripLValue]. apply (IHBaseTy Rs HRs).
  - (* MetaTypeType *)
    assert (H : forall Rs, forallb isIgnoreBase Rs = true ->
              doItStep (MetaTypeType TheType) Name M Rs =
              Rs ++ doItStep (MetaTypeType TheType) Name M []).
    { apply doItStep_appends. intros MTT E. injection E as <-.
      intros Rs HRs. apply (IHBaseTy Rs HRs). }
    intros Rs HRs. split; [apply H; exact HRs|].
    rewrite (doIt_step _ Name M Rs), (doIt_step _ Name M []).
    apply H; exact HRs.
  - intros Rs HRs.
    rewrite (doIt_step _ Name M Rs), (doIt_step _ Name M []).
    cbn [stripLValue]. split; apply doItStep_appends; (discriminate || exact HRs).
  - intros Rs HRs.
    rewrite (doIt_step _ Name M Rs), (doIt_step _ Name M []).
    cbn [stripLValue]. split; apply doItStep_appends; (discriminate || exact HRs).
  - intros Rs HRs.
    rewrite (doIt_step _ Name M Rs), (doIt_step _ Name M []).
    cbn [stripLValue]. split; apply doItStep_appends; (discriminate || exact HRs).
  - intros Rs HRs.
    rewrite (doIt_step _ Name M Rs), (doIt_step _ Name M []).
    cbn [stripLValue]. split; apply doItStep_appends; (discriminate || exact HRs).
  - intros Rs HRs.
    rewrite (doIt_step _ Name M Rs), (doIt_step _ Name M []).
    cbn [stripLValue]. split; apply doItStep_appends; (discriminate || exact HRs).
Qed.

Lemma doIt_appends Name M BaseTy Results :
  forallb isIgnoreBase Results = true ->
  doIt BaseTy Name M Results = Results ++ doIt BaseTy Name M [].
Proof. intros H. apply (doIt_appendsOnly Name M BaseTy Results H). Qed.

Definition contractCandidate (VD : ValueDecl) : MemberLookupResult :=
  if isStaticFunc VD then IgnoreBase VD else PassBase VD.

Definition isNamed (Name : Identifier) (VD : ValueDecl) : bool :=
  String.eqb (getName VD) Name.

Lemma scanProtocol_find Elements Name :
  scanProtocol Elements Name =
  option_map contractCandidate (find (isNamed Name) Elements).
Proof.
  induction Elements as [|VD Rest IH]; [reflexivity|].
  cbn [scanProtocol find]. unfold isNamed at 1.
  destruct (String.eqb (getName VD) Name); cbn [negb option_map].
  - unfold contractCandidate, getIgnoreBase, getPassBase.
    destruct (isStaticFunc VD); reflexivity.
  - exact IH.
Qed.

(** The whole lookup, one shape at a time. *)
Lemma MemberLookup_step BaseTy Name M :
  MemberLookup BaseTy Name M =
  match stripLValue BaseTy with
  | MetaTypeType MTT =>
      let Ty := getDeclaredType MTT in
      constructorCandidate Ty Name ++
      typeValueFilter_spec (MemberLookup Ty Name M)
  | ModuleType MT => map IgnoreBase (lookupValue MT Name)
  | ProtocolType Elements =>
      match find (isNamed Name) Elements with
      | Some VD => [contractCandidate VD]
      | None => extensionCandidates (ProtocolType Elements) Name M
      end
  | T => fieldCandidates T Name ++ extensionCandidates T Name M
  end.
Proof.
  unfold MemberLookup. rewrite doIt_step.
  destruct (stripLValue BaseTy) as [Obj q | MTT | MT | Es | Fields | OneOf | n];
    cbn [doItStep]; try (rewrite doFieldsAndExtensions_app; reflexivity).
  - cbn [app].
    rewrite doIt_appends by apply constructorCandidate_ignored.
    rewrite dropThis_spec, typeValueFilter_spec_app.
    rewrite (typeValueFilter_spec_ignored _ (constructorCandidate_ignored _ _)).
    reflexivity.
  - reflexivity.
  - rewrite scanProtocol_find.
    destruct (find (isNamed Name) Es); cbn [option_map]; [reflexivity|].
    rewrite doFieldsAndExtensions_app. reflexivity.
Qed.

Lemma resolveField_spec_form Fields Name Wrapped R :
  resolveField_spec Fields Name Wrapped = Some R -> isFieldForm R = true.
Proof.
  rewrite resolveField_spec_cases.
  assert (H : forall v, isFieldForm (getTupleElement v Wrapped) = true)
    by (intros v; destruct Wrapped; reflexivity).
  destruct (firstFieldNamed Fields Name); [intros [= <-]; apply H|].
  destruct (afterDollar Name); [|discriminate].
  destruct (parseUnsigned_spec s) as [v|]; [|discriminate].
  destruct (v <? Z.of_nat (List.length Fields)); [|discriminate].
  intros [= <-]. apply H.
Qed.

Lemma fieldCandidates_form BaseTy Name :
  forallb isFieldForm (fieldCandidates BaseTy Name) = true
  /\ (List.length (fieldCandidates BaseTy Name) <= 1)%nat.
Proof.
  assert (H : forall Fields W,
    forallb isFieldForm (optionToList (resolveField_spec Fields Name W)) = true
    /\ (List.length (optionToList (resolveField_spec Fields Name W)) <= 1)%nat).
  { intros Fields W.
    destruct (resolveField_spec Fields Name W) as [R|] eqn:E;
      cbn [optionToList forallb List.length]; [|split; [reflexivity | lia]].
    rewrite (resolveField_spec_form _ _ _ _ E). split; [reflexivity | lia]. }
  destruct BaseTy as [ | | | | Fields | OneOf | ]; cbn [fieldCandidates];
    try (split; [reflexivity | cbn; lia]).
  - apply H.
  - destruct (getTransparentType OneOf) as [[ | | | | Fields | | ]|];
      try (split; [reflexivity | cbn; lia]).
    apply H.
Qed.

Lemma classifyExtension_form VD : isDeclForm (classifyExtension VD) = true.
Proof.
  unfold classifyExtension.
  destruct (isaTypeDecl VD); [reflexivity|].
  destruct (isStaticFunc VD); reflexivity.
Qed.

Lemma extensionCandidates_form BaseTy Name M :
  forallb isDeclForm (extensionCandidates BaseTy Name M) = true.
Proof.
  unfold extensionCandidates.
  induction (lookupGlobalExtensionMethods M BaseTy Name) as [|VD Rest IH];
    [reflexivity|].
  cbn [map forallb]. rewrite classifyExtension_form, IH. reflexivity.
Qed.

Lemma contractCandidate_form VD : isDeclForm (contractCandidate VD) = true.
Proof. unfold contractCandidate. destruct (isStaticFunc VD); reflexivity. Qed.

(* ================================================================= *)
(** ** Contract types *)

(** C3. On a protocol type the members are scanned in declaration order.
    The first member with the name ends the lookup with one candidate added:
    a candidate that ignores the base for a static function, a candidate
    that passes the base otherwise; the extensions of the module play no
    part.  When no member has the name, the lookup goes on with the tuple,
    oneof and extension checks. *)
Theorem protocol_first_match_ends_lookup :
  forall (Elements : list ValueDecl) (Name : Identifier) (M : Module)
         (Results : list MemberLookupResult),
    doIt (ProtocolType Elements) Name M Results =
      match find (isNamed Name) Elements with
      | Some VD =>
          Results ++ [if isStaticFunc VD then IgnoreBase VD else PassBase VD]
      | None => doFieldsAndExtensions (ProtocolType Elements) Name M Results
      end
    /\ MemberLookup (ProtocolType Elements) Name M =
      match find (isNamed Name) Elements with
      | Some VD => [if isStaticFunc VD then IgnoreBase VD else PassBase VD]
      | None => extensionCandidates (ProtocolType Elements) Name M
      end.
Proof.
  intros Elements Name M Results. split.
  - rewrite doIt_step. cbn [stripLValue doItStep].
    rewrite scanProtocol_find.
    destruct (find (isNamed Name) Elements); reflexivity.
  - rewrite MemberLookup_step. reflexivity.
Qed.

(** The statement that a name declared by a protocol and registered by an
    extension on the same type comes back as two candidates. *)
Definition contract_and_extension_give_two : Prop :=
  forall (Elements : list ValueDecl) (Name : Identifier) (M : Module)
         (VD Ext : ValueDecl),
    In VD Elements -> getName VD = Name ->
    In Ext (lookupGlobalExtensionMethods M (ProtocolType Elements) Name) ->
    List.length (MemberLookup (ProtocolType Elements) Name M) = 2%nat.

(** A protocol that declares the function [f], and a module with an
    extension that adds another [f] to every protocol type. *)
Definition protoF : ValueDecl := mkValueDecl 1 "f" (FuncDecl false).
Definition extF : ValueDecl := mkValueDecl 2 "f" (FuncDecl false).

Definition moduleExtendingProtocols : Module :=
  mkModule (fun T Name =>
              match T with
              | ProtocolType _ => if String.eqb Name "f" then [extF] else []
              | _ => []
              end).

(** C2, as stated, fails: with [f] declared by the protocol and registered
    by an extension the lookup returns the protocol's member alone. *)
Lemma contract_and_extension_give_one :
  In extF (lookupGlobalExtensionMethods moduleExtendingProtocols
             (ProtocolType [protoF]) "f")
  /\ MemberLookup (ProtocolType [protoF]) "f" moduleExtendingProtocols
     = [PassBase protoF]
  /\ ~ contract_and_extension_give_two.
Proof.
  split; [left; reflexivity|]. split; [reflexivity|].
  intros H.
  specialize (H [protoF] "f" moduleExtendingProtocols protoF extF
                (or_introl eq_refl) eq_refl (or_introl eq_refl)).
  discriminate H.
Qed.

(** C2, amended. A protocol type that declares a member under the name gets
    exactly one candidate, for a member of the protocol with that name, and
    the same one whatever the extensions register.  Extension members are
    listed, each registered entry once and none removed, when the protocol
    declares no member under the name. *)
Theorem protocol_member_hides_extensions :
  forall (Elements : list ValueDecl) (Name : Identifier) (M : Module),
    (forall VD, In VD Elements -> getName VD = Name ->
       (exists VD', In VD' Elements /\ getName VD' = Name /\
          MemberLookup (ProtocolType Elements) Name M = [contractCandidate VD'])
       /\ List.length (MemberLookup (ProtocolType Elements) Name M) = 1%nat
       /\ forall M', MemberLookup (ProtocolType Elements) Name M' =
                     MemberLookup (ProtocolType Elements) Name M)
    /\ ((forall VD, In VD Elements -> getName VD <> Name) ->
        MemberLookup (ProtocolType Elements) Name M =
        map classifyExtension
            (lookupGlobalExtensionMethods M (ProtocolType Elements) Name)).
Proof.
  intros Elements Name M. split.
  - intros VD Hin Hname.
    destruct (find (isNamed Name) Elements) as [VD'|] eqn:E.
    + assert (HM : forall M0, MemberLookup (ProtocolType Elements) Name M0 =
                              [contractCandidate VD']).
      { intros M0. rewrite MemberLookup_step. cbn [stripLValue].
        rewrite E. reflexivity. }
      apply find_some in E. destruct E as [Hin' Hn'].
      apply String.eqb_eq in Hn'.
      split; [exists VD'; repeat split; auto|].
      split; [rewrite HM; reflexivity|].
      intros M'. rewrite !HM. reflexivity.
    + exfalso.
      pose proof (find_none _ _ E VD Hin) as Hn.
      unfold isNamed in Hn. rewrite Hname, String.eqb_refl in Hn.
      discriminate.
  - intros Hnone. rewrite MemberLookup_step. cbn [stripLValue].
    destruct (find (isNamed Name) Elements) as [VD'|] eqn:E; [|reflexivity].
    apply find_some in E. destruct E as [Hin' Hn'].
    apply String.eqb_eq in Hn'. exfalso. exact (Hnone VD' Hin' Hn').
Qed.

Lemma protocol_member_hides_extensions_witness :
  (exists VD', In VD' [protoF] /\ getName VD' = "f" /\
     MemberLookup (ProtocolType [protoF]) "f" moduleExtendingProtocols
     = [contractCandidate VD'])
  /\ List.length
       (MemberLookup (ProtocolType [protoF]) "f" moduleExtendingProtocols)
     = 1%nat
  /\ MemberLookup (ProtocolType []) "f" moduleExtendingProtocols
     = map classifyExtension [extF].
Proof.
  pose proof (protocol_member_hides_extensions
                [protoF] "f" moduleExtendingProtocols) as [H1 _].
  pose proof (protocol_member_hides_extensions
                [] "f" moduleExtendingProtocols) as [_ H2].
  destruct (H1 protoF (or_introl eq_refl) eq_refl) as [Ha [Hb _]].
  split; [exact Ha|]. split; [exact Hb|].
  apply H2. intros VD [].
Defined.

(* ================================================================= *)
(** ** Metatypes *)

(** A tuple type with the one field [x], and a module whose extensions add
    an instance method [x] to every tuple type. *)
Definition extX : ValueDecl := mkValueDecl 3 "x" (FuncDecl false).

Definition tupleX : TypeBase := TupleType [mkTupleTypeElt "x" (OtherType 0)].

Definition moduleExtendingTuples : Module :=
  mkModule (fun T Name =>
              match T with
              | TupleType _ => if String.eqb Name "x" then [extX] else []
              | _ => []
              end).

(** C4. On a metatype the result is the constructor candidate, if the
    declared type is a oneof with an element of the name, followed by the
    candidates of the lookup on the declared type put through the filter:
    each candidate that passes the base is turned into one that ignores it,
    each tuple or struct element candidate is dropped, the others stay, all
    in their order.  Every candidate of the result ignores the base.  When
    the lookup on the declared type gives a tuple element and a candidate
    that passes the base, as for [x] on [tupleX], the metatype gets the one
    candidate that ignores the base. *)
Theorem metatype_resets_and_drops :
  forall (MTT : NamedTypeDecl) (Name : Identifier) (M : Module),
    MemberLookup (MetaTypeType MTT) Name M =
      typeValueFilter_spec
        (constructorCandidate (getDeclaredType MTT) Name ++
         MemberLookup (getDeclaredType MTT) Name M)
    /\ MemberLookup (MetaTypeType MTT) Name M =
      constructorCandidate (getDeclaredType MTT) Name ++
      typeValueFilter_spec (MemberLookup (getDeclaredType MTT) Name M)
    /\ forallb isIgnoreBase (MemberLookup (MetaTypeType MTT) Name M) = true
    /\ (MemberLookup tupleX "x" moduleExtendingTuples
          = [TupleElement 0; PassBase extX]
        /\ MemberLookup (MetaTypeType (mkNamedTypeDecl tupleX)) "x"
                        moduleExtendingTuples
          = [IgnoreBase extX]).
Proof.
  intros MTT Name M.
  assert (E : MemberLookup (MetaTypeType MTT) Name M =
              constructorCandidate (getDeclaredType MTT) Name ++
              typeValueFilter_spec (MemberLookup (getDeclaredType MTT) Name M))
    by (rewrite MemberLookup_step; reflexivity).
  split; [|split; [exact E | split]].
  - rewrite E, typeValueFilter_spec_app.
    rewrite (typeValueFilter_spec_ignored _ (constructorCandidate_ignored _ _)).
    reflexivity.
  - rewrite E, forallb_app, constructorCandidate_ignored.
    apply typeValueFilter_spec_all_ignored.
  - split; reflexivity.
Qed.

(* ================================================================= *)
(** ** Order of discovery *)

(** C10. The candidates come in the order of their discovery.  On a base
    that is no metatype the list is a run of field candidates followed by a
    run of candidates that carry a declaration; on a tuple and on a oneof
    the first run is the field found in the tuple (for a oneof, in the tuple
    that it is transparent for) and the second the extension members in the
    order of the registry.  On a metatype whose declared type is a oneof with
    an element of the name, the candidate for that element is the head of
    the list, before everything the lookup on the oneof contributes. *)
Theorem results_in_discovery_order :
  forall (BaseTy : TypeBase) (Name : Identifier) (M : Module),
    (isMetaTypeType (stripLValue BaseTy) = false ->
       exists Fs Ds,
         MemberLookup BaseTy Name M = Fs ++ Ds
         /\ forallb isFieldForm Fs = true
         /\ forallb isDeclForm Ds = true)
    /\ (forall Fields, stripLValue BaseTy = TupleType Fields ->
          MemberLookup BaseTy Name M =
          optionToList (resolveField_spec Fields Name false) ++
          extensionCandidates (TupleType Fields) Name M)
    /\ (forall OneOf, stripLValue BaseTy = OneOfType OneOf ->
          MemberLookup BaseTy Name M =
          fieldCandidates (OneOfType OneOf) Name ++
          extensionCandidates (OneOfType OneOf) Name M)
    /\ (forall MTT OOTy Elt,
          stripLValue BaseTy = MetaTypeType MTT ->
          getDeclaredType MTT = OneOfType OOTy ->
          getElement OOTy Name = Some Elt ->
          MemberLookup BaseTy Name M =
          IgnoreBase Elt ::
          typeValueFilter_spec (MemberLookup (OneOfType OOTy) Name M)).
Proof.
  intros BaseTy Name M.
  pose proof (MemberLookup_step BaseTy Name M) as E.
  repeat split.
  - intros Hmeta.
    destruct (stripLValue BaseTy) as [Obj q | MTT | MT | Es | Fields | OneOf | n]
      eqn:Es'; try discriminate;
      try (eexists; eexists; split; [exact E | split;
             [apply fieldCandidates_form | apply extensionCandidates_form]]).
    + exists [], (map IgnoreBase (lookupValue MT Name)).
      split; [exact E | split; [reflexivity|]].
      clear E. induction (lookupValue MT Name) as [|VD Rest IH];
        [reflexivity | exact IH].
    + destruct (find (isNamed Name) Es) as [VD|].
      * exists [], [contractCandidate VD].
        split; [exact E | split; [reflexivity|]].
        cbn [forallb]. rewrite contractCandidate_form. reflexivity.
      * exists [], (extensionCandidates (ProtocolType Es) Name M).
        split; [exact E | split; [reflexivity|]].
        apply extensionCandidates_form.
  - intros Fields H. rewrite H in E. exact E.
  - intros OneOf H. rewrite H in E. exact E.
  - intros MTT OOTy Elt H HT HE. rewrite H in E. cbv zeta in E.
    rewrite HT in E. cbn [constructorCandidate] in E. rewrite HE in E.
    exact E.
Qed.

(** A oneof with the element [Nil], seen through its metatype, and a struct
    over a tuple with the field [x]. *)
Definition eltNil : ValueDecl := mkValueDecl 4 "Nil" OneOfElementDecl.
Definition extNil : ValueDecl := mkValueDecl 5 "Nil" (FuncDecl true).

Definition oneofList : OneOfDecl := mkOneOfDecl [eltNil] None.

Definition moduleExtendingOneofs : Module :=
  mkModule (fun T Name =>
              match T with
              | OneOfType _ => if String.eqb Name "Nil" then [extNil] else []
              | _ => []
              end).

Lemma results_in_discovery_order_witness :
  (exists Fs Ds,
     MemberLookup tupleX "x" moduleExtendingTuples = Fs ++ Ds
     /\ forallb isFieldForm Fs = true /\ forallb isDeclForm Ds = true)
  /\ MemberLookup tupleX "x" moduleExtendingTuples =
     optionToList
       (resolveField_spec [mkTupleTypeElt "x" (OtherType 0)] "x" false) ++
     extensionCandidates tupleX "x" moduleExtendingTuples
  /\ MemberLookup (MetaTypeType (mkNamedTypeDecl (OneOfType oneofList)))
                  "Nil" moduleExtendingOneofs =
     IgnoreBase eltNil ::
     typeValueFilter_spec
       (MemberLookup (OneOfType oneofList) "Nil" moduleExtendingOneofs).
Proof.
  destruct (results_in_discovery_order tupleX "x" moduleExtendingTuples)
    as [H1 [H2 _]].
  destruct (results_in_discovery_order
              (MetaTypeType (mkNamedTypeDecl (OneOfType oneofList)))
              "Nil" moduleExtendingOneofs) as [_ [_ [_ H4]]].
  split; [apply H1; reflexivity|].
  split; [apply (H2 _ eq_refl)|].
  apply (H4 _ oneofList eltNil eq_refl eq_refl eq_refl).
Defined.

(* ================================================================= *)
(** ** Reference wrappers *)

Definition moduleWithoutExtensions : Module := mkModule (fun _ _ => []).

(** C8. The lookup on an lvalue wrapper around a type gives the same results
    in the same order as the lookup on the type itself, from any results
    already in the vector and whatever the qualifiers of the wrapper.  The
    wrapped type is an object type: a type that is not itself an lvalue
    wrapper, as [getObjectType] returns it; [doIt] looks through the one
    wrapper there is. *)
Theorem lvalue_wrapper_looked_through :
  forall (T : TypeBase) (Quals : Qual) (Name : Identifier) (M : Module)
         (Results : list MemberLookupResult),
    isLValueType T = false ->
    doIt (LValueType T Quals) Name M Results = doIt T Name M Results
    /\ MemberLookup (LValueType T Quals) Name M = MemberLookup T Name M.
Proof.
  intros T Quals Name M Results HT.
  assert (H : forall Rs, doIt (LValueType T Quals) Name M Rs = doIt T Name M Rs).
  { intros Rs. rewrite (doIt_step (LValueType T Quals)), (doIt_step T).
    destruct T; try discriminate; reflexivity. }
  split; [apply H | apply H].
Qed.

Lemma lvalue_wrapper_looked_through_witness :
  doIt (LValueType tupleX 2) "x" moduleExtendingTuples [IgnoreBase extF]
    = doIt tupleX "x" moduleExtendingTuples [IgnoreBase extF]
  /\ MemberLookup (LValueType tupleX 2) "x" moduleExtendingTuples
    = MemberLookup tupleX "x" moduleExtendingTuples.
Proof.
  apply (lvalue_wrapper_looked_through tupleX 2 "x" moduleExtendingTuples
           [IgnoreBase extF]).
  reflexivity.
Defined.

(* ================================================================= *)
(** ** Building the expression *)

(** The declarations that a list of candidates carries, in order. *)
Definition declsOf (Rs : list MemberLookupResult) : list ValueDecl :=
  flat_map (fun R =>
              match R with
              | PassBase D | IgnoreBase D => [D]
              | StructElement _ | TupleElement _ => []
              end) Rs.

Lemma collectOverloads_decls Rs :
  forallb isDeclForm Rs = true ->
  forall ResultSet,
    collectOverloads Rs ResultSet = Done (ResultSet ++ declsOf Rs).
Proof.
  induction Rs as [|R Rs IH]; intros H ResultSet.
  - cbn. rewrite app_nil_r. reflexivity.
  - cbn [forallb] in H. apply andb_true_iff in H. destruct H as [HR HRs].
    destruct R as [D | D | n | n]; try discriminate;
      cbn [collectOverloads declsOf flat_map]; fold (declsOf Rs);
      rewrite (IH HRs); unfold push_back; rewrite <- app_assoc; reflexivity.
Qed.

Lemma collectOverloads_field Rs :
  existsb isFieldForm Rs = true ->
  forall ResultSet, collectOverloads Rs ResultSet = AssertFail.
Proof.
  induction Rs as [|R Rs IH]; intros H ResultSet; [discriminate|].
  destruct R as [D | D | n | n]; cbn [collectOverloads]; try reflexivity;
    cbn [existsb isFieldForm orb] in H; apply (IH H).
Qed.

Lemma declsOf_length Rs :
  forallb isDeclForm Rs = true -> List.length (declsOf Rs) = List.length Rs.
Proof.
  induction Rs as [|R Rs IH]; [reflexivity|].
  cbn [forallb]. intros H. apply andb_true_iff in H. destruct H as [HR HRs].
  destruct R; try discriminate; cbn [declsOf flat_map app List.length];
    fold (declsOf Rs); rewrite (IH HRs); reflexivity.
Qed.

Lemma declsOf_pointwise Rs :
  forallb isDeclForm Rs = true ->
  Forall2 (fun R D => R = PassBase D \/ R = IgnoreBase D) Rs (declsOf Rs).
Proof.
  induction Rs as [|R Rs IH]; [constructor|].
  cbn [forallb]. intros H. apply andb_true_iff in H. destruct H as [HR HRs].
  destruct R; try discriminate; cbn [declsOf flat_map app];
    fold (declsOf Rs); constructor; auto.
Qed.

(** C7. [createResultAST] ends in a failed assertion on an empty candidate
    list and on a list of two or more candidates one of which is a tuple or
    struct element.  On a list of two or more candidates that all carry a
    declaration it builds one overloaded member reference over the base, the
    dot location and the name location, whose declarations are those of the
    candidates, one for each candidate, in the order of the list. *)
Theorem createResultAST_contract :
  forall (Implicit : Qual) (Results : list MemberLookupResult) (Base : Expr)
         (DotLoc NameLoc : SourceLoc),
    createResultAST Implicit [] Base DotLoc NameLoc = AssertFail
    /\ ((2 <= List.length Results)%nat ->
        existsb isFieldForm Results = true ->
        createResultAST Implicit Results Base DotLoc NameLoc = AssertFail)
    /\ ((2 <= List.length Results)%nat ->
        forallb isDeclForm Results = true ->
        createResultAST Implicit Results Base DotLoc NameLoc =
          Done (OverloadedMemberRefExpr Base DotLoc (declsOf Results) NameLoc)
        /\ List.length (declsOf Results) = List.length Results
        /\ Forall2 (fun R D => R = PassBase D \/ R = IgnoreBase D)
                   Results (declsOf Results)).
Proof.
  intros Implicit Results Base DotLoc NameLoc.
  split; [reflexivity|]. split.
  - intros Hlen Hfield.
    destruct Results as [|R1 [|R2 Rs]]; cbn [List.length] in Hlen; try lia.
    unfold createResultAST. cbn [isSuccess List.length Nat.eqb negb].
    rewrite (collectOverloads_field _ Hfield). reflexivity.
  - intros Hlen Hdecl.
    split; [|split; [apply declsOf_length | apply declsOf_pointwise]];
      try exact Hdecl.
    destruct Results as [|R1 [|R2 Rs]]; cbn [List.length] in Hlen; try lia.
    unfold createResultAST. cbn [isSuccess List.length Nat.eqb negb].
    rewrite (collectOverloads_decls _ Hdecl). reflexivity.
Qed.

Lemma createResultAST_contract_witness :
  createResultAST 2 [TupleElement 0; PassBase extX]
                  (OpaqueExpr 0 tupleX) (ValidLoc 1) (ValidLoc 2) = AssertFail
  /\ createResultAST 2 [PassBase extF; IgnoreBase extNil; PassBase extF]
                     (OpaqueExpr 0 tupleX) (ValidLoc 1) (ValidLoc 2) =
     Done (OverloadedMemberRefExpr (OpaqueExpr 0 tupleX) (ValidLoc 1)
                                   [extF; extNil; extF] (ValidLoc 2)).
Proof.
  split.
  - apply (createResultAST_contract 2 [TupleElement 0; PassBase extX]
             (OpaqueExpr 0 tupleX) (ValidLoc 1) (ValidLoc 2));
      [cbn; lia | reflexivity].
  - apply (createResultAST_contract 2
             [PassBase extF; IgnoreBase extNil; PassBase extF]
             (OpaqueExpr 0 tupleX) (ValidLoc 1) (ValidLoc 2));
      [cbn; lia | reflexivity].
Defined.

Lemma implicit_bit_forced (qs Implicit : Qual) :
  Z.land (Z.lor qs Implicit) Implicit = Implicit.
Proof.
  apply Z.bits_inj'. intros n _.
  rewrite Z.land_spec, Z.lor_spec.
  destruct (Z.testbit qs n), (Z.testbit Implicit n); reflexivity.
Qed.

Lemma qualifiers_kept (qs Implicit : Qual) :
  Z.land (Z.lor qs Implicit) qs = qs.
Proof.
  apply Z.bits_inj'. intros n _.
  rewrite Z.land_spec, Z.lor_spec.
  destruct (Z.testbit qs n), (Z.testbit Implicit n); reflexivity.
Qed.

(** C6. For a single tuple element candidate and a base whose type is an
    lvalue of a tuple, [createResultAST] builds a tuple element expression
    over the base (the syntactic one when the dot location is valid, the
    implicit-this one otherwise) whose type is an lvalue of the type of the
    field, with the qualifiers of the base's lvalue type and the implicit
    bit: every bit of the base's qualifiers is kept and the implicit bit is
    set, whether or not it was set on the base. *)
Theorem tuple_element_of_lvalue_is_implicit_lvalue :
  forall (Implicit : Qual) (Base : Expr) (DotLoc NameLoc : SourceLoc)
         (Fields : list TupleTypeElt) (qs : Qual) (FieldNo : Z)
         (F : TupleTypeElt),
    getType Base = Some (LValueType (TupleType Fields) qs) ->
    0 <= FieldNo ->
    nth_error Fields (Z.to_nat FieldNo) = Some F ->
    let FieldType := LValueType (getFieldType F) (Z.lor qs Implicit) in
    createResultAST Implicit [TupleElement FieldNo] Base DotLoc NameLoc =
      Done (if isValid DotLoc
            then SyntacticTupleElementExpr Base DotLoc FieldNo NameLoc FieldType
            else ImplicitThisTupleElementExpr Base FieldNo NameLoc FieldType)
    /\ (forall E,
          createResultAST Implicit [TupleElement FieldNo] Base DotLoc NameLoc
            = Done E ->
          getType E = Some FieldType)
    /\ Z.land (Z.lor qs Implicit) Implicit = Implicit
    /\ Z.land (Z.lor qs Implicit) qs = qs.
Proof.
  intros Implicit Base DotLoc NameLoc Fields qs FieldNo F HTy Hpos Hnth FieldType.
  assert (E : createResultAST Implicit [TupleElement FieldNo] Base DotLoc NameLoc
              = Done (if isValid DotLoc
                      then SyntacticTupleElementExpr Base DotLoc FieldNo
                                                     NameLoc FieldType
                      else ImplicitThisTupleElementExpr Base FieldNo NameLoc
                                                        FieldType)).
  { unfold createResultAST. cbn [isSuccess List.length Nat.eqb negb].
    unfold buildTupleElementExpr, typeOf. rewrite HTy. cbn [bind].
    unfold getElementType.
    destruct (Z.ltb_spec FieldNo 0); [lia|].
    rewrite Hnth. cbn [bind makeSimilarLValue].
    destruct (isValid DotLoc); reflexivity. }
  split; [exact E|]. split.
  - intros E' H. rewrite E in H. injection H as <-.
    destruct (isValid DotLoc); reflexivity.
  - split; [apply implicit_bit_forced | apply qualifiers_kept].
Qed.

(** A base written as an explicit reference (no bit set) and one that is
    already implicit (bit 2 set, with bit 1 besides) both give an lvalue
    with the implicit bit. *)
Lemma tuple_element_of_lvalue_is_implicit_lvalue_witness :
  createResultAST 2 [TupleElement 0] (OpaqueExpr 0 (LValueType tupleX 0))
                  (ValidLoc 1) (ValidLoc 2) =
    Done (SyntacticTupleElementExpr (OpaqueExpr 0 (LValueType tupleX 0))
            (ValidLoc 1) 0 (ValidLoc 2) (LValueType (OtherType 0) 2))
  /\ createResultAST 2 [TupleElement 0] (OpaqueExpr 0 (LValueType tupleX 3))
                     InvalidLoc (ValidLoc 2) =
    Done (ImplicitThisTupleElementExpr (OpaqueExpr 0 (LValueType tupleX 3))
            0 (ValidLoc 2) (LValueType (OtherType 0) 3)).
Proof.
  split.
  - apply (tuple_element_of_lvalue_is_implicit_lvalue 2
             (OpaqueExpr 0 (LValueType tupleX 0)) (ValidLoc 1) (ValidLoc 2)
             [mkTupleTypeElt "x" (OtherType 0)] 0 0
             (mkTupleTypeElt "x" (OtherType 0)));
      [reflexivity | lia | reflexivity].
  - apply (tuple_element_of_lvalue_is_implicit_lvalue 2
             (OpaqueExpr 0 (LValueType tupleX 3)) InvalidLoc (ValidLoc 2)
             [mkTupleTypeElt "x" (OtherType 0)] 3 0
             (mkTupleTypeElt "x" (OtherType 0)));
      [reflexivity | lia | reflexivity].
Defined.

(* ================================================================= *)
(** ** Shape of the finished list *)

Lemma decl_forms_well_formed Rs :
  forallb isDeclForm Rs = true -> Rs = [] \/ wellFormedResults Rs = true.
Proof.
  intros H. destruct Rs as [|R1 [|R2 Rs]]; [left | right | right];
    try reflexivity.
  exact H.
Qed.

Lemma ignored_is_decl_form Rs :
  forallb isIgnoreBase Rs = true -> forallb isDeclForm Rs = true.
Proof.
  induction Rs as [|R Rs IH]; [reflexivity|].
  cbn [forallb]. intros H. apply andb_true_iff in H. destruct H as [HR HRs].
  destruct R; try discriminate. cbn [isDeclForm andb]. apply IH, HRs.
Qed.

(** The finished list is empty (no such member), or of the shape that
    [createResultAST] accepts, unless a field of the base type meets an
    extension member under the same name. *)
Lemma results_well_formed_unless_mixed BaseTy Name M :
  MemberLookup BaseTy Name M = []
  \/ wellFormedResults (MemberLookup BaseTy Name M) = true
  \/ (fieldCandidates (stripLValue BaseTy) Name <> []
      /\ extensionCandidates (stripLValue BaseTy) Name M <> []).
Proof.
  assert (Hdecl : forall Rs, forallb isDeclForm Rs = true ->
            Rs = [] \/ wellFormedResults Rs = true \/
            (fieldCandidates (stripLValue BaseTy) Name <> []
             /\ extensionCandidates (stripLValue BaseTy) Name M <> [])).
  { intros Rs H. destruct (decl_forms_well_formed Rs H); auto. }
  assert (Hmix : forall T, stripLValue BaseTy = T ->
            MemberLookup BaseTy Name M =
              fieldCandidates T Name ++ extensionCandidates T Name M ->
            MemberLookup BaseTy Name M = []
            \/ wellFormedResults (MemberLookup BaseTy Name M) = true
            \/ (fieldCandidates T Name <> []
                /\ extensionCandidates T Name M <> [])).
  { intros T _ E. rewrite E.
    destruct (fieldCandidates_form T Name) as [_ Hlen].
    pose proof (extensionCandidates_form T Name M) as Hext.
    destruct (fieldCandidates T Name) as [|F [|F' Fs]];
      [apply decl_forms_well_formed in Hext; cbn [app]; tauto | |
       cbn [List.length] in Hlen; lia].
    destruct (extensionCandidates T Name M) as [|D Ds];
      [right; left; reflexivity|].
    right; right. split; discriminate. }
  pose proof (MemberLookup_step BaseTy Name M) as E.
  destruct (stripLValue BaseTy) as [Obj q | MTT | MT | Es | Fields | OneOf | n]
    eqn:ET; try (apply (Hmix _ eq_refl E)).
  - apply Hdecl, ignored_is_decl_form.
    rewrite E. cbv zeta. rewrite forallb_app, constructorCandidate_ignored.
    apply typeValueFilter_spec_all_ignored.
  - apply Hdecl. rewrite E. clear E.
    induction (lookupValue MT Name) as [|VD Rest IH]; [reflexivity | exact IH].
  - apply Hdecl. rewrite E.
    destruct (find (isNamed Name) Es) as [VD|].
    + cbn [forallb]. rewrite contractCandidate_form. reflexivity.
    + apply extensionCandidates_form.
Qed.

(** A struct: a oneof with one element, transparent for the tuple with the
    field [x]; and a module whose extensions add an instance method [x] to
    every oneof. *)
Definition ctorS : ValueDecl := mkValueDecl 6 "S" OneOfElementDecl.

Definition structS : TypeBase :=
  OneOfType (mkOneOfDecl [ctorS] (Some tupleX)).

Definition moduleExtendingStructs : Module :=
  mkModule (fun T Name =>
              match T with
              | OneOfType _ => if String.eqb Name "x" then [extX] else []
              | _ => []
              end).

(** C1. The lookup of [x] on a struct with the field [x], in a module where
    an extension of the struct has a method [x], returns the struct element
    followed by the method: two candidates, one of them a field form.  The
    same holds on the tuple itself.  [createResultAST] ends in its assertion
    on both lists. *)
Theorem field_meets_extension_member :
  MemberLookup structS "x" moduleExtendingStructs
    = [StructElement 0; PassBase extX]
  /\ MemberLookup tupleX "x" moduleExtendingTuples
    = [TupleElement 0; PassBase extX]
  /\ wellFormedResults (MemberLookup structS "x" moduleExtendingStructs) = false
  /\ wellFormedResults (MemberLookup tupleX "x" moduleExtendingTuples) = false
  /\ forall (Implicit : Qual) (Base : Expr) (DotLoc NameLoc : SourceLoc),
       createResultAST Implicit
         (MemberLookup structS "x" moduleExtendingStructs) Base DotLoc NameLoc
         = AssertFail
       /\ createResultAST Implicit
            (MemberLookup tupleX "x" moduleExtendingTuples) Base DotLoc NameLoc
          = AssertFail.
Proof.
  repeat split; reflexivity.
Qed.

(* ================================================================= *)
(** ** Field indices *)

Lemma firstFieldNamed_sound Fields Name k :
  firstFieldNamed Fields Name = Some k ->
  exists F, nth_error Fields k = Some F /\ getFieldName F = Name
            /\ (k < List.length Fields)%nat.
Proof.
  revert k. induction Fields as [|F Rest IH]; cbn [firstFieldNamed];
    intros k H; [discriminate|].
  destruct (String.eqb (getFieldName F) Name) eqn:E.
  - injection H as <-. exists F. apply String.eqb_eq in E.
    cbn [nth_error List.length]. repeat split; [exact E | lia].
  - destruct (firstFieldNamed Rest Name) as [j|]; [|discriminate].
    cbn [option_map] in H. injection H as <-.
    destruct (IH j eq_refl) as [F' [Hn [Hname Hlt]]].
    exists F'. cbn [nth_error List.length]. repeat split; auto. lia.
Qed.

Lemma firstFieldNamed_earlier Fields Name k :
  firstFieldNamed Fields Name = Some k ->
  forall j F, (j < k)%nat -> nth_error Fields j = Some F ->
              getFieldName F <> Name.
Proof.
  revert k. induction Fields as [|F0 Rest IH]; cbn [firstFieldNamed];
    intros k H j F Hj Hn; [discriminate|].
  destruct (String.eqb (getFieldName F0) Name) eqn:E.
  - injection H as <-. lia.
  - destruct (firstFieldNamed Rest Name) as [k'|]; [|discriminate].
    cbn [option_map] in H. injection H as <-.
    destruct j as [|j'].
    + cbn [nth_error] in Hn. injection Hn as <-.
      apply String.eqb_neq. exact E.
    + cbn [nth_error] in Hn. apply (IH k' eq_refl j' F); [lia | exact Hn].
Qed.

Lemma firstFieldNamed_none Fields Name :
  firstFieldNamed Fields Name = None ->
  forall G, In G Fields -> getFieldName G <> Name.
Proof.
  induction Fields as [|F0 Rest IH]; cbn [firstFieldNamed];
    intros H G HG; [destruct HG|].
  destruct (String.eqb (getFieldName F0) Name) eqn:E; [discriminate|].
  destruct (firstFieldNamed Rest Name); [discriminate|].
  destruct HG as [<- | HG]; [apply String.eqb_neq; exact E|].
  apply IH; [reflexivity | exact HG].
Qed.

Lemma resolveField_spec_in_range Fields Name Wrapped R :
  resolveField_spec Fields Name Wrapped = Some R ->
  exists i, R = getTupleElement i Wrapped
            /\ 0 <= i < Z.of_nat (List.length Fields).
Proof.
  rewrite resolveField_spec_cases.
  destruct (firstFieldNamed Fields Name) as [k|] eqn:E.
  - intros [= <-]. exists (Z.of_nat k). split; [reflexivity|].
    destruct (firstFieldNamed_sound _ _ _ E) as [_ [_ [_ Hlt]]]. lia.
  - destruct (afterDollar Name) as [Digits|]; [|discriminate].
    destruct (parseUnsigned_spec Digits) as [v|] eqn:P; [|discriminate].
    destruct (Z.ltb_spec v (Z.of_nat (List.length Fields))); [|discriminate].
    intros [= <-]. exists v. split; [reflexivity|].
    split; [|assumption].
    unfold parseUnsigned_spec in P. destruct Digits as [|c s]; [discriminate|].
    destruct (allDecimalDigits (String c s)) eqn:Hd; [|discriminate].
    cbn [andb] in P.
    destruct (decimalValue (String c s) <? 2 ^ 32); [|discriminate].
    injection P as <-. apply (decimalValueFrom_ge _ Hd 0). lia.
Qed.

Lemma firstFieldNamed_absent Fields Name :
  (forall G, In G Fields -> getFieldName G <> Name) ->
  firstFieldNamed Fields Name = None.
Proof.
  induction Fields as [|F Rest IH]; intros H; [reflexivity|].
  cbn [firstFieldNamed].
  destruct (String.eqb (getFieldName F) Name) eqn:E.
  - apply String.eqb_eq in E. destruct (H F (or_introl eq_refl) E).
  - rewrite IH; [reflexivity|]. intros G HG. apply H. right. exact HG.
Qed.

Lemma firstFieldNamed_present Fields Name G :
  In G Fields -> getFieldName G = Name ->
  exists k, firstFieldNamed Fields Name = Some k.
Proof.
  intros HG HN.
  destruct (firstFieldNamed Fields Name) as [k|] eqn:E; [exists k; reflexivity|].
  destruct (firstFieldNamed_none _ _ E G HG HN).
Qed.

(** X1. [doTuple] keeps the results that are in the vector and appends at
    most one candidate to them; a candidate it appends is of the struct kind
    or the tuple kind as [IsStruct] says and carries an index that is a
    position of the tuple, so that the type of the element is there.  When
    the tuple declares a field under the name, [doTuple] does append a
    candidate, the one for the first field of that name.  When the tuple
    declares no field under the name and the name does not start with a
    dollar sign, it appends nothing. *)
Theorem doTuple_adds_one_valid_field :
  forall (Fields : list TupleTypeElt) (Name : Identifier) (IsStruct : bool)
         (Results : list MemberLookupResult),
    (exists Added,
       doTuple Fields Name IsStruct Results = Results ++ Added
       /\ (List.length Added <= 1)%nat
       /\ forall R, In R Added ->
            exists i F,
              R = getTupleElement i IsStruct
              /\ 0 <= i < Z.of_nat (List.length Fields)
              /\ nth_error Fields (Z.to_nat i) = Some F
              /\ getElementType Fields i = Done (getFieldType F))
    /\ (forall G, In G Fields -> getFieldName G = Name ->
        exists i F,
          doTuple Fields Name IsStruct Results =
            Results ++ [getTupleElement i IsStruct]
          /\ 0 <= i < Z.of_nat (List.length Fields)
          /\ nth_error Fields (Z.to_nat i) = Some F
          /\ getFieldName F = Name
          /\ forall j G', (j < Z.to_nat i)%nat ->
                          nth_error Fields j = Some G' ->
                          getFieldName G' <> Name)
    /\ ((forall G, In G Fields -> getFieldName G <> Name) ->
        afterDollar Name = None ->
        doTuple Fields Name IsStruct Results = Results).
Proof.
  intros Fields Name IsStruct Results.
  split; [|split].
  - rewrite doTuple_refines.
    exists (optionToList (resolveField_spec Fields Name IsStruct)).
    split; [reflexivity|].
    destruct (resolveField_spec Fields Name IsStruct) as [R0|] eqn:E;
      cbn [optionToList List.length]; (split; [lia|]); [|intros R []].
    intros R [<- | []].
    destruct (resolveField_spec_in_range _ _ _ _ E) as [i [-> Hi]].
    destruct (nth_error Fields (Z.to_nat i)) as [F|] eqn:Hn;
      [|apply nth_error_None in Hn; lia].
    exists i, F. split; [reflexivity|]. split; [exact Hi|].
    split; [exact Hn|].
    unfold getElementType. destruct (Z.ltb_spec i 0); [lia|].
    rewrite Hn. reflexivity.
  - intros G HG HN.
    destruct (firstFieldNamed_present _ _ _ HG HN) as [k Ek].
    destruct (firstFieldNamed_sound _ _ _ Ek) as [F [Hn [Hname Hlt]]].
    exists (Z.of_nat k), F.
    rewrite doTuple_refines, resolveField_spec_cases, Ek, Nat2Z.id.
    split; [reflexivity|]. split; [lia|]. split; [exact Hn|].
    split; [exact Hname|].
    intros j G' Hj HG'. exact (firstFieldNamed_earlier _ _ _ Ek j G' Hj HG').
  - intros Hnone Hdollar.
    rewrite doTuple_refines, resolveField_spec_cases.
    rewrite (firstFieldNamed_absent _ _ Hnone), Hdollar.
    apply app_nil_r.
Qed.

Lemma doTuple_adds_one_valid_field_witness :
  (exists i F,
     doTuple [mkTupleTypeElt "a" (OtherType 0); mkTupleTypeElt "b" (OtherType 1);
              mkTupleTypeElt "b" (OtherType 2)] "b" false [IgnoreBase extF]
     = [IgnoreBase extF] ++ [getTupleElement i false]
     /\ 0 <= i < 3
     /\ nth_error [mkTupleTypeElt "a" (OtherType 0);
                   mkTupleTypeElt "b" (OtherType 1);
                   mkTupleTypeElt "b" (OtherType 2)] (Z.to_nat i) = Some F
     /\ getFieldName F = "b"
     /\ forall j G', (j < Z.to_nat i)%nat ->
           nth_error [mkTupleTypeElt "a" (OtherType 0);
                      mkTupleTypeElt "b" (OtherType 1);
                      mkTupleTypeElt "b" (OtherType 2)] j = Some G' ->
           getFieldName G' <> "b")
  /\ doTuple [mkTupleTypeElt "a" (OtherType 0); mkTupleTypeElt "b" (OtherType 1);
              mkTupleTypeElt "b" (OtherType 2)] "c" true [IgnoreBase extF]
     = [IgnoreBase extF].
Proof.
  destruct (doTuple_adds_one_valid_field
              [mkTupleTypeElt "a" (OtherType 0); mkTupleTypeElt "b" (OtherType 1);
               mkTupleTypeElt "b" (OtherType 2)] "b" false [IgnoreBase extF])
    as [_ [H _]].
  destruct (doTuple_adds_one_valid_field
              [mkTupleTypeElt "a" (OtherType 0); mkTupleTypeElt "b" (OtherType 1);
               mkTupleTypeElt "b" (OtherType 2)] "c" true [IgnoreBase extF])
    as [_ [_ H']].
  split.
  - apply (H (mkTupleTypeElt "b" (OtherType 2)));
      [right; right; left; reflexivity | reflexivity].
  - apply H'; [|reflexivity].
    intros G [<- | [<- | [<- | []]]]; discriminate.
Defined.

(* ================================================================= *)
(** ** Positions written in decimal *)

(** The name of the field at a position: a dollar sign and the position in
    decimal. *)
Definition positionName (k : nat) : Identifier :=
  String "$" (DecimalString.NilZero.string_of_uint (Nat.to_uint k)).

Lemma string_of_uint_digits d :
  allDecimalDigits (DecimalString.NilEmpty.string_of_uint d) = true.
Proof. induction d; cbn; auto. Qed.

Lemma string_of_uint_value d :
  forall acc,
    decimalValueFrom (DecimalString.NilEmpty.string_of_uint d) (Z.of_nat acc)
    = Z.of_nat (Nat.of_uint_acc d acc).
Proof.
  induction d; intros acc;
    cbn [DecimalString.NilEmpty.string_of_uint decimalValueFrom Nat.of_uint_acc];
    try reflexivity;
    rewrite Nat.tail_mul_spec, <- IHd; f_equal;
    match goal with
    | |- context [nat_of_ascii ?c] =>
        let n := eval vm_compute in (nat_of_ascii c) in
        change (nat_of_ascii c) with n
    end; lia.
Qed.

Lemma positionName_parses k :
  Z.of_nat k < 2 ^ 32 ->
  parseUnsigned_spec (DecimalString.NilZero.string_of_uint (Nat.to_uint k))
  = Some (Z.of_nat k).
Proof.
  intros Hk.
  assert (Hv : decimalValue
                 (DecimalString.NilZero.string_of_uint (Nat.to_uint k))
               = Z.of_nat k).
  { rewrite <- (DecimalNat.Unsigned.of_to k) at 2.
    unfold DecimalString.NilZero.string_of_uint, decimalValue, Nat.of_uint.
    destruct (Nat.to_uint k) eqn:E; try apply (string_of_uint_value _ 0%nat).
    reflexivity. }
  assert (Hd : allDecimalDigits
                 (DecimalString.NilZero.string_of_uint (Nat.to_uint k)) = true).
  { unfold DecimalString.NilZero.string_of_uint.
    destruct (Nat.to_uint k); try apply string_of_uint_digits. reflexivity. }
  unfold parseUnsigned_spec. rewrite Hd, Hv. cbn [andb].
  destruct (Z.ltb_spec (Z.of_nat k) (2 ^ 32)); [|lia].
  destruct (DecimalString.NilZero.string_of_uint (Nat.to_uint k)) eqn:E;
    [|reflexivity].
  unfold DecimalString.NilZero.string_of_uint in E.
  destruct (Nat.to_uint k); discriminate E.
Qed.

(** X2. Every position of a tuple can be reached by its number: for a
    position below the field count (and below 2^32), the name made of a
    dollar sign and the position in decimal makes [doTuple] append the
    candidate for that very position, provided the tuple declares no field
    under that name. *)
Theorem doTuple_position_name_round_trip :
  forall (Fields : list TupleTypeElt) (k : nat) (IsStruct : bool)
         (Results : list MemberLookupResult),
    (k < List.length Fields)%nat ->
    Z.of_nat k < 2 ^ 32 ->
    firstFieldNamed Fields (positionName k) = None ->
    doTuple Fields (positionName k) IsStruct Results =
    Results ++ [getTupleElement (Z.of_nat k) IsStruct].
Proof.
  intros Fields k IsStruct Results Hk H32 Hnone.
  rewrite doTuple_refines, resolveField_spec_cases, Hnone.
  unfold positionName. rewrite afterDollar_cases. cbn [Ascii.eqb Bool.eqb].
  rewrite (positionName_parses k H32).
  destruct (Z.ltb_spec (Z.of_nat k) (Z.of_nat (List.length Fields))); [|lia].
  reflexivity.
Qed.

Lemma doTuple_position_name_round_trip_witness :
  doTuple (repeat (mkTupleTypeElt "" (OtherType 0)) 12) (positionName 11)
          true [] = [StructElement 11].
Proof.
  apply (doTuple_position_name_round_trip
           (repeat (mkTupleTypeElt "" (OtherType 0)) 12) 11 true []);
    [cbn; lia | lia | reflexivity].
Defined.

(* ================================================================= *)
(** ** What the metatype filter keeps *)

Lemma typeValueFilter_spec_decls Rs :
  typeValueFilter_spec Rs = map IgnoreBase (declsOf Rs).
Proof.
  induction Rs as [|R Rs IH]; [reflexivity|].
  destruct R; cbn [typeValueFilter_spec declsOf flat_map app map];
    fold (typeValueFilter_spec Rs); fold (declsOf Rs); rewrite IH; reflexivity.
Qed.

Lemma declsOf_ignored Ds : declsOf (map IgnoreBase Ds) = Ds.
Proof.
  induction Ds as [|D Ds IH]; [reflexivity|].
  cbn [map declsOf flat_map app]. fold (declsOf (map IgnoreBase Ds)).
  rewrite IH. reflexivity.
Qed.

Lemma declsOf_app Rs Ss : declsOf (Rs ++ Ss) = declsOf Rs ++ declsOf Ss.
Proof. unfold declsOf. apply flat_map_app. Qed.

Lemma declsOf_length_le Rs : (List.length (declsOf Rs) <= List.length Rs)%nat.
Proof.
  induction Rs as [|R Rs IH]; [cbn; lia|].
  destruct R; cbn [declsOf flat_map app List.length]; fold (declsOf Rs); lia.
Qed.

(** X3. The reset loop and the erase of the metatype case keep the
    declarations of the candidates, all of them and in their order, each as
    a candidate that ignores the base; the field candidates are gone.  The
    list never grows, and running the filter again changes nothing. *)
Theorem dropThis_keeps_declarations :
  forall Results : list MemberLookupResult,
    dropThis Results = map IgnoreBase (declsOf Results)
    /\ declsOf (dropThis Results) = declsOf Results
    /\ (List.length (dropThis Results) <= List.length Results)%nat
    /\ dropThis (dropThis Results) = dropThis Results.
Proof.
  intros Results.
  assert (E : forall Rs, dropThis Rs = map IgnoreBase (declsOf Rs))
    by (intros Rs; rewrite dropThis_spec; apply typeValueFilter_spec_decls).
  split; [apply E|]. split; [rewrite E; apply declsOf_ignored|]. split.
  - rewrite E, length_map. apply declsOf_length_le.
  - rewrite (E (dropThis Results)), (E Results), declsOf_ignored. reflexivity.
Qed.

(* ================================================================= *)
(** ** Candidates that ignore the base always build *)

(** The expression built for candidates that all ignore the base, read off
    the declarations they carry. *)
Definition ignoredBaseExpr (Ds : list ValueDecl) (Base : Expr)
    (DotLoc NameLoc : SourceLoc) : Outcome Expr :=
  match Ds with
  | [] => AssertFail
  | [D] => Done (DotSyntaxBaseIgnoredExpr Base DotLoc (DeclRefExpr D NameLoc))
  | _ => Done (OverloadedMemberRefExpr Base DotLoc Ds NameLoc)
  end.

Lemma createResultAST_ignored Implicit Rs Base DotLoc NameLoc :
  forallb isIgnoreBase Rs = true ->
  createResultAST Implicit Rs Base DotLoc NameLoc =
  ignoredBaseExpr (declsOf Rs) Base DotLoc NameLoc.
Proof.
  intros H.
  destruct Rs as [|R1 [|R2 Rs]]; [reflexivity | |].
  - destruct R1; try discriminate. reflexivity.
  - pose proof (ignored_is_decl_form _ H) as Hd.
    unfold createResultAST. cbn [isSuccess List.length Nat.eqb negb].
    rewrite (collectOverloads_decls _ Hd). cbn [bind app].
    destruct R1; try discriminate. destruct R2; try discriminate.
    reflexivity.
Qed.

(** X4. On a module type, wrapped as an lvalue or not, the lookup gives one
    candidate that ignores the base for each declaration that the module's
    [lookupValue] returns, in that order; the module in whose context the
    lookup runs, and with it every extension, plays no part.
    [createResultAST] fails on these results only when the module has no
    such value; one value gives a reference with the base ignored, several
    give an overload set over exactly the module's declarations. *)
Theorem module_lookup_ignores_base :
  forall (MT : ModuleRef) (Quals : Qual) (Name : Identifier) (M M' : Module)
         (Implicit : Qual) (Base : Expr) (DotLoc NameLoc : SourceLoc),
    MemberLookup (ModuleType MT) Name M = map IgnoreBase (lookupValue MT Name)
    /\ MemberLookup (LValueType (ModuleType MT) Quals) Name M =
       MemberLookup (ModuleType MT) Name M
    /\ MemberLookup (ModuleType MT) Name M' = MemberLookup (ModuleType MT) Name M
    /\ createResultAST Implicit (MemberLookup (ModuleType MT) Name M)
                       Base DotLoc NameLoc =
       ignoredBaseExpr (lookupValue MT Name) Base DotLoc NameLoc.
Proof.
  intros.
  assert (E : forall M0, MemberLookup (ModuleType MT) Name M0 =
                         map IgnoreBase (lookupValue MT Name))
    by (intros M0; rewrite MemberLookup_step; reflexivity).
  split; [apply E|]. split; [rewrite !MemberLookup_step; reflexivity|].
  split; [rewrite !E; reflexivity|].
  rewrite createResultAST_ignored, E, declsOf_ignored; [reflexivity|].
  rewrite E. clear. induction (lookupValue MT Name) as [|D Ds IH];
    [reflexivity | exact IH].
Qed.

(** X5. On a metatype, wrapped as an lvalue or not, the results always pass
    the assertions of [createResultAST] on the kinds: the builder fails only
    on the empty list, builds a reference with the base ignored for one
    candidate, and an overload set over the candidates' declarations, one
    for each candidate, for more. *)
Theorem metatype_results_always_build :
  forall (BaseTy : TypeBase) (Name : Identifier) (M : Module)
         (Implicit : Qual) (Base : Expr) (DotLoc NameLoc : SourceLoc),
    isMetaTypeType (stripLValue BaseTy) = true ->
    createResultAST Implicit (MemberLookup BaseTy Name M) Base DotLoc NameLoc =
      ignoredBaseExpr (declsOf (MemberLookup BaseTy Name M)) Base DotLoc NameLoc
    /\ List.length (declsOf (MemberLookup BaseTy Name M)) =
       List.length (MemberLookup BaseTy Name M)
    /\ (createResultAST Implicit (MemberLookup BaseTy Name M)
                        Base DotLoc NameLoc = AssertFail
        <-> MemberLookup BaseTy Name M = []).
Proof.
  intros BaseTy Name M Implicit Base DotLoc NameLoc Hmeta.
  assert (Hign : forallb isIgnoreBase (MemberLookup BaseTy Name M) = true).
  { rewrite MemberLookup_step.
    destruct (stripLValue BaseTy); try discriminate. cbv zeta.
    rewrite forallb_app, constructorCandidate_ignored.
    apply typeValueFilter_spec_all_ignored. }
  pose proof (createResultAST_ignored Implicit _ Base DotLoc NameLoc Hign) as E.
  pose proof (declsOf_length _ (ignored_is_decl_form _ Hign)) as Hlen.
  split; [exact E|]. split; [exact Hlen|].
  rewrite E. destruct (MemberLookup BaseTy Name M) as [|R Rs].
  - split; reflexivity.
  - split; [|discriminate].
    cbn [List.length] in Hlen.
    destruct (declsOf (R :: Rs)) as [|D [|D' Ds]]; cbn [ignoredBaseExpr];
      [discriminate Hlen | discriminate | discriminate].
Qed.

Lemma metatype_results_always_build_witness :
  createResultAST 2
    (MemberLookup (LValueType (MetaTypeType (mkNamedTypeDecl tupleX)) 0) "x"
                  moduleExtendingTuples)
    (OpaqueExpr 0 (OtherType 0)) (ValidLoc 1) (ValidLoc 2) =
  Done (DotSyntaxBaseIgnoredExpr (OpaqueExpr 0 (OtherType 0)) (ValidLoc 1)
          (DeclRefExpr extX (ValidLoc 2))).
Proof.
  apply (metatype_results_always_build
           (LValueType (MetaTypeType (mkNamedTypeDecl tupleX)) 0) "x"
           moduleExtendingTuples 2 (OpaqueExpr 0 (OtherType 0))
           (ValidLoc 1) (ValidLoc 2)).
  reflexivity.
Defined.

(** A type that reaches the field and extension checks of [doIt]: neither a
    metatype, nor a module, nor a protocol. *)
Definition reachesExtensions (T : TypeBase) : bool :=
  match T with
  | MetaTypeType _ | ModuleType _ | ProtocolType _ => false
  | _ => true
  end.

Lemma MemberLookup_plain BaseTy Name M :
  reachesExtensions (stripLValue BaseTy) = true ->
  MemberLookup BaseTy Name M =
  fieldCandidates (stripLValue BaseTy) Name ++
  extensionCandidates (stripLValue BaseTy) Name M.
Proof.
  intros H. rewrite MemberLookup_step.
  destruct (stripLValue BaseTy); try discriminate; reflexivity.
Qed.

Lemma declsOf_fields Rs : forallb isFieldForm Rs = true -> declsOf Rs = [].
Proof.
  induction Rs as [|R Rs IH]; [reflexivity|].
  cbn [forallb]. intros H. apply andb_true_iff in H. destruct H as [HR HRs].
  destruct R; try discriminate; cbn [declsOf flat_map app]; apply IH, HRs.
Qed.

Lemma declsOf_extensions Ds : declsOf (map classifyExtension Ds) = Ds.
Proof.
  induction Ds as [|D Ds IH]; [reflexivity|].
  cbn [map declsOf flat_map]. fold (declsOf (map classifyExtension Ds)).
  rewrite IH. unfold classifyExtension, getIgnoreBase, getPassBase.
  destruct (isaTypeDecl D); [reflexivity|].
  destruct (isStaticFunc D); reflexivity.
Qed.

(** X6. Through the metatype of a type that is neither a metatype, a module
    nor a protocol, every member that the extensions register for the type
    under the name is found, static or not, each as a candidate that ignores
    the base and in the order of the registry, after the constructor
    candidate if there is one; a field of the type under that name is not
    in the list. *)
Theorem metatype_lists_all_extension_members :
  forall (MTT : NamedTypeDecl) (Name : Identifier) (M : Module),
    reachesExtensions (stripLValue (getDeclaredType MTT)) = true ->
    MemberLookup (MetaTypeType MTT) Name M =
    constructorCandidate (getDeclaredType MTT) Name ++
    map IgnoreBase
        (lookupGlobalExtensionMethods M (stripLValue (getDeclaredType MTT))
                                      Name).
Proof.
  intros MTT Name M H.
  rewrite MemberLookup_step. cbn [stripLValue]. cbv zeta.
  rewrite (MemberLookup_plain _ Name M H).
  rewrite typeValueFilter_spec_decls, declsOf_app.
  rewrite (declsOf_fields _ (proj1 (fieldCandidates_form _ _))).
  unfold extensionCandidates. rewrite declsOf_extensions. reflexivity.
Qed.

Lemma metatype_lists_all_extension_members_witness :
  MemberLookup (MetaTypeType (mkNamedTypeDecl (OneOfType oneofList))) "Nil"
               moduleExtendingOneofs
  = [IgnoreBase eltNil; IgnoreBase extNil].
Proof.
  apply (metatype_lists_all_extension_members
           (mkNamedTypeDecl (OneOfType oneofList)) "Nil" moduleExtendingOneofs).
  reflexivity.
Defined.

(* ================================================================= *)
(** ** Field candidates build on a base of the type looked up *)

(** The type given to a projection out of a base of type [BaseTy]: the
    object type itself, or an lvalue of it with the qualifiers of the base
    and the implicit bit when the base is an lvalue. *)
Definition similarType (Implicit : Qual) (BaseTy ObjectTy : TypeBase)
    : TypeBase :=
  match BaseTy with
  | LValueType _ qs => LValueType ObjectTy (Z.lor qs Implicit)
  | _ => ObjectTy
  end.

(** The tuple element node, by the validity of the dot location. *)
Definition tupleElementNode (Base : Expr) (DotLoc : SourceLoc) (FieldNo : Z)
    (NameLoc : SourceLoc) (Ty : TypeBase) : Expr :=
  if isValid DotLoc
  then SyntacticTupleElementExpr Base DotLoc FieldNo NameLoc Ty
  else ImplicitThisTupleElementExpr Base FieldNo NameLoc Ty.

Definition fieldAt (Fields : list TupleTypeElt) (i : Z) : option TupleTypeElt :=
  if i <? 0 then None else nth_error Fields (Z.to_nat i).

Lemma fieldAt_in_range Fields i :
  (exists F, fieldAt Fields i = Some F)
  <-> 0 <= i < Z.of_nat (List.length Fields).
Proof.
  unfold fieldAt. destruct (Z.ltb_spec i 0).
  - split; [intros [F H']; discriminate | lia].
  - split.
    + intros [F HF].
      assert (Z.to_nat i < List.length Fields)%nat
        by (apply nth_error_Some; rewrite HF; discriminate).
      lia.
    + intros Hi.
      destruct (nth_error Fields (Z.to_nat i)) as [F|] eqn:E;
        [exists F; reflexivity|].
      apply nth_error_None in E. lia.
Qed.

Lemma buildTupleElementExpr_typed Implicit Base DotLoc NameLoc i BaseTy :
  getType Base = Some BaseTy ->
  buildTupleElementExpr Implicit Base DotLoc NameLoc i =
  match stripLValue BaseTy with
  | TupleType Fields =>
      match fieldAt Fields i with
      | Some F =>
          Done (tupleElementNode Base DotLoc i NameLoc
                  (similarType Implicit BaseTy (getFieldType F)))
      | None => AssertFail
      end
  | _ => AssertFail
  end.
Proof.
  intros HTy.
  unfold buildTupleElementExpr, typeOf, getElementType, fieldAt,
    tupleElementNode.
  rewrite HTy. cbn [bind].
  destruct BaseTy as [Obj q | | | | Fields | | ]; cbn [stripLValue];
    try reflexivity.
  - destruct Obj; try reflexivity.
    destruct (i <? 0); [reflexivity|].
    destruct (nth_error Fields (Z.to_nat i)); [|reflexivity].
    cbn [bind makeSimilarLValue similarType].
    destruct (isValid DotLoc); reflexivity.
  - destruct (i <? 0); [reflexivity|].
    destruct (nth_error Fields (Z.to_nat i)); [|reflexivity].
    cbn [bind similarType].
    destruct (isValid DotLoc); reflexivity.
Qed.

Lemma lookThroughOneofs_typed Implicit E BaseTy :
  getType E = Some BaseTy ->
  lookThroughOneofs Implicit E =
  match stripLValue BaseTy with
  | OneOfType Oneof =>
      match getTransparentType Oneof with
      | Some ResultType =>
          Done (LookThroughOneofExpr E (similarType Implicit BaseTy ResultType))
      | None => AssertFail
      end
  | _ => AssertFail
  end.
Proof.
  intros HTy. unfold lookThroughOneofs, typeOf. rewrite HTy. cbn [bind].
  destruct BaseTy as [Obj q | | | | | Oneof | ]; cbn [stripLValue];
    try reflexivity;
    try (destruct Obj; try reflexivity);
    try (destruct (getTransparentType _); reflexivity).
Qed.

(** X7. A tuple element candidate builds exactly when the type of the base,
    looked through one lvalue, is a tuple with a field at the index; every
    other base ends in a failed assertion.  The expression is a tuple
    element node over the base itself; on a base that is no lvalue its type
    is the plain type of the field, with no lvalue wrapped around it. *)
Theorem tuple_element_builds_iff_field_exists :
  forall (Implicit : Qual) (Base : Expr) (DotLoc NameLoc : SourceLoc)
         (FieldNo : Z) (BaseTy : TypeBase),
    getType Base = Some BaseTy ->
    ((exists E, createResultAST Implicit [TupleElement FieldNo] Base
                                DotLoc NameLoc = Done E)
     <-> exists Fields, stripLValue BaseTy = TupleType Fields
                        /\ 0 <= FieldNo < Z.of_nat (List.length Fields))
    /\ ((forall E, createResultAST Implicit [TupleElement FieldNo] Base
                                   DotLoc NameLoc <> Done E)
        -> createResultAST Implicit [TupleElement FieldNo] Base
                           DotLoc NameLoc = AssertFail)
    /\ (forall Fields F,
          BaseTy = TupleType Fields ->
          nth_error Fields (Z.to_nat FieldNo) = Some F -> 0 <= FieldNo ->
          createResultAST Implicit [TupleElement FieldNo] Base DotLoc NameLoc
          = Done (tupleElementNode Base DotLoc FieldNo NameLoc
                                   (getFieldType F))).
Proof.
  intros Implicit Base DotLoc NameLoc i BaseTy HTy.
  assert (E : createResultAST Implicit [TupleElement i] Base DotLoc NameLoc =
              buildTupleElementExpr Implicit Base DotLoc NameLoc i)
    by reflexivity.
  rewrite E, (buildTupleElementExpr_typed _ _ _ _ _ _ HTy).
  split; [|split].
  - split.
    + intros [X HX].
      destruct (stripLValue BaseTy) as [ | | | | Fields | | ];
        try discriminate.
      exists Fields. split; [reflexivity|].
      apply fieldAt_in_range.
      destruct (fieldAt Fields i) as [F|]; [exists F; reflexivity|].
      discriminate.
    + intros [Fields [-> Hi]].
      apply fieldAt_in_range in Hi. destruct Hi as [F ->].
      eexists. reflexivity.
  - intros Hno.
    destruct (stripLValue BaseTy) as [ | | | | Fields | | ];
      try reflexivity.
    destruct (fieldAt Fields i) as [F|]; [|reflexivity].
    exfalso. eapply Hno. reflexivity.
  - intros Fields F -> Hn Hi. cbn [stripLValue similarType].
    unfold fieldAt. destruct (Z.ltb_spec i 0); [lia|].
    rewrite Hn. reflexivity.
Qed.

Lemma tuple_element_builds_iff_field_exists_witness :
  (exists E, createResultAST 2 [TupleElement 0] (OpaqueExpr 0 tupleX)
                             InvalidLoc (ValidLoc 2) = Done E)
  /\ createResultAST 2 [TupleElement 0] (OpaqueExpr 0 tupleX)
                     InvalidLoc (ValidLoc 2)
     = Done (ImplicitThisTupleElementExpr (OpaqueExpr 0 tupleX) 0 (ValidLoc 2)
                                          (OtherType 0)).
Proof.
  destruct (tuple_element_builds_iff_field_exists 2 (OpaqueExpr 0 tupleX)
              InvalidLoc (ValidLoc 2) 0 tupleX eq_refl) as [[_ H1] [_ H3]].
  split.
  - apply H1. exists [mkTupleTypeElt "x" (OtherType 0)].
    split; [reflexivity | cbn; lia].
  - apply (H3 [mkTupleTypeElt "x" (OtherType 0)]
              (mkTupleTypeElt "x" (OtherType 0)) eq_refl eq_refl). lia.
Defined.

Lemma createResultAST_struct_typed :
  forall (Implicit : Qual) (Base : Expr) (DotLoc NameLoc : SourceLoc)
         (FieldNo : Z) (BaseTy : TypeBase),
    getType Base = Some BaseTy ->
    createResultAST Implicit [StructElement FieldNo] Base DotLoc NameLoc =
      match stripLValue BaseTy with
      | OneOfType Oneof =>
          match getTransparentType Oneof with
          | Some T =>
              createResultAST Implicit [TupleElement FieldNo]
                (LookThroughOneofExpr Base (similarType Implicit BaseTy T))
                DotLoc NameLoc
          | None => AssertFail
          end
      | _ => AssertFail
      end
    /\ (forall Oneof Fields F,
          stripLValue BaseTy = OneOfType Oneof ->
          getTransparentType Oneof = Some (TupleType Fields) ->
          fieldAt Fields FieldNo = Some F ->
          createResultAST Implicit [StructElement FieldNo] Base DotLoc NameLoc
          = Done (tupleElementNode
                    (LookThroughOneofExpr Base
                       (similarType Implicit BaseTy (TupleType Fields)))
                    DotLoc FieldNo NameLoc
                    (similarType Implicit BaseTy (getFieldType F)))).
Proof.
  intros Implicit Base DotLoc NameLoc i BaseTy HTy.
  assert (E : createResultAST Implicit [StructElement i] Base DotLoc NameLoc =
              match stripLValue BaseTy with
              | OneOfType Oneof =>
                  match getTransparentType Oneof with
                  | Some T =>
                      createResultAST Implicit [TupleElement i]
                        (LookThroughOneofExpr Base
                           (similarType Implicit BaseTy T))
                        DotLoc NameLoc
                  | None => AssertFail
                  end
              | _ => AssertFail
              end).
  { unfold createResultAST. cbn [isSuccess List.length Nat.eqb negb].
    rewrite (lookThroughOneofs_typed _ _ _ HTy).
    destruct (stripLValue BaseTy) as [ | | | | | Oneof | ]; try reflexivity.
    destruct (getTransparentType Oneof); reflexivity. }
  split; [exact E|].
  intros Oneof Fields F HS HT HF. rewrite E, HS, HT.
  change (createResultAST Implicit [TupleElement i]
            (LookThroughOneofExpr Base
               (similarType Implicit BaseTy (TupleType Fields)))
            DotLoc NameLoc)
    with (buildTupleElementExpr Implicit
            (LookThroughOneofExpr Base
               (similarType Implicit BaseTy (TupleType Fields)))
            DotLoc NameLoc i).
  rewrite (buildTupleElementExpr_typed Implicit
             (LookThroughOneofExpr Base
                (similarType Implicit BaseTy (TupleType Fields)))
             DotLoc NameLoc i
             (similarType Implicit BaseTy (TupleType Fields)) eq_refl).
  destruct BaseTy as [Obj q | | | | | | ]; cbn [stripLValue similarType] in *;
    try discriminate; rewrite HF; try reflexivity.
  rewrite <- Z.lor_assoc, Z.lor_diag. reflexivity.
Qed.

(** X8. A struct element candidate is built as a tuple element candidate
    over a look-through node: the base must have, looked through one lvalue,
    the type of a transparent oneof, else the builder ends in a failed
    assertion; the look-through node gets the transparent type, and the
    tuple element is then built over that node.  For a oneof transparent for
    a tuple with a field at the index the result is a tuple element node
    over the look-through node over the base; when the base is an lvalue,
    both nodes have lvalue types with the qualifiers of the base and the
    implicit bit, and plain types otherwise. *)
Theorem struct_element_builds_through_oneof :
  forall (Implicit : Qual) (Base : Expr) (DotLoc NameLoc : SourceLoc)
         (FieldNo : Z) (BaseTy : TypeBase),
    getType Base = Some BaseTy ->
    createResultAST Implicit [StructElement FieldNo] Base DotLoc NameLoc =
      match stripLValue BaseTy with
      | OneOfType Oneof =>
          match getTransparentType Oneof with
          | Some T =>
              createResultAST Implicit [TupleElement FieldNo]
                (LookThroughOneofExpr Base (similarType Implicit BaseTy T))
                DotLoc NameLoc
          | None => AssertFail
          end
      | _ => AssertFail
      end
    /\ (forall Oneof Fields F,
          stripLValue BaseTy = OneOfType Oneof ->
          getTransparentType Oneof = Some (TupleType Fields) ->
          fieldAt Fields FieldNo = Some F ->
          createResultAST Implicit [StructElement FieldNo] Base DotLoc NameLoc
          = Done (tupleElementNode
                    (LookThroughOneofExpr Base
                       (similarType Implicit BaseTy (TupleType Fields)))
                    DotLoc FieldNo NameLoc
                    (similarType Implicit BaseTy (getFieldType F)))).
Proof. exact createResultAST_struct_typed. Qed.

Lemma struct_element_builds_through_oneof_witness :
  createResultAST 2 [StructElement 0] (OpaqueExpr 0 (LValueType structS 1))
                  (ValidLoc 1) (ValidLoc 2) =
  Done (SyntacticTupleElementExpr
          (LookThroughOneofExpr (OpaqueExpr 0 (LValueType structS 1))
                                (LValueType tupleX 3))
          (ValidLoc 1) 0 (ValidLoc 2) (LValueType (OtherType 0) 3)).
Proof.
  apply (proj2 (struct_element_builds_through_oneof 2
                  (OpaqueExpr 0 (LValueType structS 1)) (ValidLoc 1)
                  (ValidLoc 2) 0 (LValueType structS 1) eq_refl)
               (mkOneOfDecl [ctorS] (Some tupleX))
               [mkTupleTypeElt "x" (OtherType 0)]
               (mkTupleTypeElt "x" (OtherType 0)));
    reflexivity.
Defined.

Lemma getType_tupleElementNode Base DotLoc i NameLoc Ty :
  getType (tupleElementNode Base DotLoc i NameLoc Ty) = Some Ty.
Proof. unfold tupleElementNode. destruct (isValid DotLoc); reflexivity. Qed.

Lemma special_results_decl_form BaseTy Name M :
  reachesExtensions (stripLValue BaseTy) = false ->
  forallb isDeclForm (MemberLookup BaseTy Name M) = true.
Proof.
  intros H. rewrite MemberLookup_step.
  destruct (stripLValue BaseTy) as [ | MTT | MT | Es | | | ];
    try discriminate.
  - cbv zeta. apply ignored_is_decl_form.
    rewrite forallb_app, constructorCandidate_ignored.
    apply typeValueFilter_spec_all_ignored.
  - induction (lookupValue MT Name) as [|D Ds IH]; [reflexivity | exact IH].
  - destruct (find (isNamed Name) Es) as [VD|].
    + cbn [forallb]. rewrite contractCandidate_form. reflexivity.
    + apply extensionCandidates_form.
Qed.

Lemma decl_form_not_field R :
  isDeclForm R = true -> isFieldForm R = true -> False.
Proof. destruct R; discriminate. Qed.

(** X9. When the lookup on a type finds one candidate and it is a field
    form, [createResultAST] builds it on any base of that type: the type is
    a tuple or a oneof transparent for a tuple, looked through one lvalue,
    the index is a position of the tuple, and no assertion fails.  The
    expression has the type of the field, as an lvalue with the qualifiers
    of the base and the implicit bit when the base is an lvalue. *)
Theorem found_field_builds_on_its_base :
  forall (Implicit : Qual) (BaseTy : TypeBase) (Name : Identifier)
         (M : Module) (Base : Expr) (DotLoc NameLoc : SourceLoc)
         (R : MemberLookupResult),
    getType Base = Some BaseTy ->
    MemberLookup BaseTy Name M = [R] ->
    isFieldForm R = true ->
    exists E Fields F i,
      createResultAST Implicit (MemberLookup BaseTy Name M) Base DotLoc NameLoc
        = Done E
      /\ fieldAt Fields i = Some F
      /\ getType E = Some (similarType Implicit BaseTy (getFieldType F))
      /\ ((R = TupleElement i /\ stripLValue BaseTy = TupleType Fields)
          \/ (R = StructElement i /\
              exists Oneof, stripLValue BaseTy = OneOfType Oneof /\
                            getTransparentType Oneof = Some (TupleType Fields))).
Proof.
  intros Implicit BaseTy Name M Base DotLoc NameLoc R HTy HR Hfield.
  destruct (reachesExtensions (stripLValue BaseTy)) eqn:Hplain.
  2:{ pose proof (special_results_decl_form BaseTy Name M Hplain) as Hd.
      rewrite HR in Hd. cbn [forallb] in Hd.
      apply andb_true_iff in Hd. destruct Hd as [Hd _].
      destruct (decl_form_not_field R Hd Hfield). }
  pose proof (MemberLookup_plain BaseTy Name M Hplain) as E.
  rewrite HR in E.
  assert (Hfc : fieldCandidates (stripLValue BaseTy) Name = [R]).
  { destruct (fieldCandidates_form (stripLValue BaseTy) Name) as [_ Hlen].
    pose proof (extensionCandidates_form (stripLValue BaseTy) Name M) as Hext.
    destruct (fieldCandidates (stripLValue BaseTy) Name) as [|F0 [|F1 Fs]].
    - cbn [app] in E. rewrite <- E in Hext. cbn [forallb] in Hext.
      apply andb_true_iff in Hext. destruct Hext as [Hd _].
      destruct (decl_form_not_field R Hd Hfield).
    - cbn [app] in E. injection E as -> _. reflexivity.
    - cbn [List.length] in Hlen. lia. }
  rewrite HR. clear E HR.
  destruct (stripLValue BaseTy) as [ | | | | Fields | Oneof | ] eqn:ES;
    cbn [fieldCandidates] in Hfc; try discriminate.
  - destruct (resolveField_spec Fields Name false) as [R'|] eqn:ER;
      [|discriminate].
    cbn [optionToList] in Hfc. injection Hfc as ->.
    destruct (resolveField_spec_in_range _ _ _ _ ER) as [i [-> Hi]].
    apply fieldAt_in_range in Hi. destruct Hi as [F HF].
    exists (tupleElementNode Base DotLoc i NameLoc
              (similarType Implicit BaseTy (getFieldType F))), Fields, F, i.
    split; [|split; [exact HF | split;
               [apply getType_tupleElementNode | left; split; reflexivity]]].
    change (createResultAST Implicit [getTupleElement i false] Base DotLoc
                            NameLoc)
      with (buildTupleElementExpr Implicit Base DotLoc NameLoc i).
    rewrite (buildTupleElementExpr_typed _ _ _ _ _ _ HTy), ES, HF.
    reflexivity.
  - destruct (getTransparentType Oneof) as [[ | | | | Fields | | ]|] eqn:ET;
      try discriminate.
    destruct (resolveField_spec Fields Name true) as [R'|] eqn:ER;
      [|discriminate].
    cbn [optionToList] in Hfc. injection Hfc as ->.
    destruct (resolveField_spec_in_range _ _ _ _ ER) as [i [-> Hi]].
    apply fieldAt_in_range in Hi. destruct Hi as [F HF].
    exists (tupleElementNode
              (LookThroughOneofExpr Base
                 (similarType Implicit BaseTy (TupleType Fields)))
              DotLoc i NameLoc
              (similarType Implicit BaseTy (getFieldType F))), Fields, F, i.
    split; [|split; [exact HF | split;
               [apply getType_tupleElementNode |
                right; split; [reflexivity | exists Oneof; auto]]]].
    apply (proj2 (createResultAST_struct_typed Implicit Base DotLoc NameLoc i
                    BaseTy HTy) Oneof Fields F ES ET HF).
Qed.

Lemma found_field_builds_on_its_base_witness :
  exists E Fields F i,
    createResultAST 2 (MemberLookup (LValueType structS 1) "$0"
                                    moduleExtendingTuples)
                    (OpaqueExpr 0 (LValueType structS 1))
                    (ValidLoc 1) (ValidLoc 2) = Done E
    /\ fieldAt Fields i = Some F
    /\ getType E = Some (similarType 2 (LValueType structS 1) (getFieldType F))
    /\ ((StructElement 0 = TupleElement i /\
         stripLValue (LValueType structS 1) = TupleType Fields)
        \/ (StructElement 0 = StructElement i /\
            exists Oneof, stripLValue (LValueType structS 1) = OneOfType Oneof /\
                          getTransparentType Oneof = Some (TupleType Fields))).
Proof.
  apply (found_field_builds_on_its_base 2 (LValueType structS 1) "$0"
           moduleExtendingTuples (OpaqueExpr 0 (LValueType structS 1))
           (ValidLoc 1) (ValidLoc 2) (StructElement 0));
    reflexivity.
Defined.

(* ================================================================= *)
(** ** One declaration, several declarations *)

(** The expression for a single declaration, by whether its candidate
    ignores the base: a reference with the base ignored; else a call of the
    function on the base, a member reference to the variable, or, for any
    other declaration, the failed [cast<VarDecl>]. *)
Definition memberExpr (IgnoresBase : bool) (D : ValueDecl) (Base : Expr)
    (DotLoc NameLoc : SourceLoc) : Outcome Expr :=
  if IgnoresBase then
    Done (DotSyntaxBaseIgnoredExpr Base DotLoc (DeclRefExpr D NameLoc))
  else if isaFuncDecl D then
    Done (DotSyntaxCallExpr (DeclRefExpr D NameLoc) DotLoc Base)
  else if isaVarDecl D then
    Done (MemberRefExpr Base DotLoc D NameLoc)
  else AssertFail.

Lemma createResultAST_overloads Implicit R1 R2 Rs Base DotLoc NameLoc :
  forallb isDeclForm (R1 :: R2 :: Rs) = true ->
  createResultAST Implicit (R1 :: R2 :: Rs) Base DotLoc NameLoc =
  Done (OverloadedMemberRefExpr Base DotLoc (declsOf (R1 :: R2 :: Rs)) NameLoc).
Proof.
  intros Hd. unfold createResultAST. cbn [isSuccess List.length Nat.eqb negb].
  rewrite (collectOverloads_decls _ Hd). reflexivity.
Qed.

Lemma createResultAST_mixed Implicit R1 R2 Rs Base DotLoc NameLoc :
  existsb isFieldForm (R1 :: R2 :: Rs) = true ->
  createResultAST Implicit (R1 :: R2 :: Rs) Base DotLoc NameLoc = AssertFail.
Proof.
  intros Hf. unfold createResultAST. cbn [isSuccess List.length Nat.eqb negb].
  rewrite (collectOverloads_field _ Hf). reflexivity.
Qed.

(** A type on which the lookup of the name reaches the extension check of
    [doIt]: no metatype and no module, which return before it, and no
    protocol with a member of the name, on which the loop returns. *)
Definition reachesExtensionCheck (T : TypeBase) (Name : Identifier) : bool :=
  match T with
  | MetaTypeType _ | ModuleType _ => false
  | ProtocolType Elements =>
      match find (isNamed Name) Elements with
      | Some _ => false
      | None => true
      end
  | _ => true
  end.

Lemma MemberLookup_reaching BaseTy Name M :
  reachesExtensionCheck (stripLValue BaseTy) Name = true ->
  MemberLookup BaseTy Name M =
  fieldCandidates (stripLValue BaseTy) Name ++
  extensionCandidates (stripLValue BaseTy) Name M.
Proof.
  intros H. rewrite MemberLookup_step.
  destruct (stripLValue BaseTy) as [ | | | Es | | | ]; try discriminate;
    try reflexivity.
  cbn [reachesExtensionCheck] in H.
  destruct (find (isNamed Name) Es); [discriminate | reflexivity].
Qed.

(** X10. When the lookup reaches the extension check, on any type that is
    no metatype, no module and no protocol with a member of the name, and
    the type has no field under the name, the expression depends on the
    extension members alone.  None: the builder fails, nothing was found.
    One: a type declaration or a static function is referenced with the base
    ignored, another function is called on the base, a variable is a member
    reference.  Several: an overload set over exactly the registered
    members, in the order of the registry, static and instance members
    alike. *)
Theorem extension_members_build :
  forall (Implicit : Qual) (BaseTy : TypeBase) (Name : Identifier)
         (M : Module) (Base : Expr) (DotLoc NameLoc : SourceLoc),
    reachesExtensionCheck (stripLValue BaseTy) Name = true ->
    fieldCandidates (stripLValue BaseTy) Name = [] ->
    createResultAST Implicit (MemberLookup BaseTy Name M) Base DotLoc NameLoc =
    match lookupGlobalExtensionMethods M (stripLValue BaseTy) Name with
    | [] => AssertFail
    | [D] => memberExpr (isaTypeDecl D || isStaticFunc D) D Base DotLoc NameLoc
    | Ds => Done (OverloadedMemberRefExpr Base DotLoc Ds NameLoc)
    end.
Proof.
  intros Implicit BaseTy Name M Base DotLoc NameLoc Hreach Hnofield.
  rewrite (MemberLookup_reaching _ Name M Hreach), Hnofield. cbn [app].
  unfold extensionCandidates.
  destruct (lookupGlobalExtensionMethods M (stripLValue BaseTy) Name)
    as [|D1 [|D2 Ds]] eqn:E; [reflexivity | |].
  - cbn [map]. unfold classifyExtension, memberExpr, getIgnoreBase, getPassBase.
    destruct (isaTypeDecl D1); [reflexivity|].
    destruct (isStaticFunc D1); reflexivity.
  - change (map classifyExtension (D1 :: D2 :: Ds))
      with (classifyExtension D1 :: classifyExtension D2 ::
            map classifyExtension Ds).
    rewrite createResultAST_overloads.
    + change (classifyExtension D1 :: classifyExtension D2 ::
              map classifyExtension Ds)
        with (map classifyExtension (D1 :: D2 :: Ds)).
      rewrite declsOf_extensions. reflexivity.
    + change (classifyExtension D1 :: classifyExtension D2 ::
              map classifyExtension Ds)
        with (map classifyExtension (D1 :: D2 :: Ds)).
      rewrite <- E. apply extensionCandidates_form.
Qed.

(** An overload set on a type of no special shape, and a protocol that
    declares [f] asked for [h], which only an extension has. *)
Lemma extension_members_build_witness :
  createResultAST 2 (MemberLookup (OtherType 7) "f" (mkModule (fun _ _ =>
                       [extF; extNil; extF])))
                  (OpaqueExpr 0 (OtherType 7)) (ValidLoc 1) (ValidLoc 2) =
    Done (OverloadedMemberRefExpr (OpaqueExpr 0 (OtherType 7)) (ValidLoc 1)
                                  [extF; extNil; extF] (ValidLoc 2))
  /\ createResultAST 2
       (MemberLookup (LValueType (ProtocolType [protoF]) 0) "h"
                     (mkModule (fun _ _ => [extF])))
       (OpaqueExpr 0 (LValueType (ProtocolType [protoF]) 0))
       (ValidLoc 1) (ValidLoc 2) =
     Done (DotSyntaxCallExpr (DeclRefExpr extF (ValidLoc 2)) (ValidLoc 1)
             (OpaqueExpr 0 (LValueType (ProtocolType [protoF]) 0))).
Proof.
  split.
  - apply (extension_members_build 2 (OtherType 7) "f"
             (mkModule (fun _ _ => [extF; extNil; extF]))
             (OpaqueExpr 0 (OtherType 7)) (ValidLoc 1) (ValidLoc 2));
      reflexivity.
  - apply (extension_members_build 2 (LValueType (ProtocolType [protoF]) 0) "h"
             (mkModule (fun _ _ => [extF]))
             (OpaqueExpr 0 (LValueType (ProtocolType [protoF]) 0))
             (ValidLoc 1) (ValidLoc 2));
      reflexivity.
Defined.

(** X11. The member that a protocol lookup finds is built as follows: a
    static function is referenced with the base ignored, another function is
    called on the base, a variable is a member reference.  A member that is
    a type declaration is given a candidate that passes the base, unlike an
    extension member that is a type declaration, and [createResultAST] ends
    in the failed cast to a variable on it. *)
Theorem protocol_member_builds :
  forall (Implicit : Qual) (Elements : list ValueDecl) (Name : Identifier)
         (M : Module) (VD : ValueDecl) (Base : Expr)
         (DotLoc NameLoc : SourceLoc),
    find (isNamed Name) Elements = Some VD ->
    createResultAST Implicit (MemberLookup (ProtocolType Elements) Name M)
                    Base DotLoc NameLoc =
      memberExpr (isStaticFunc VD) VD Base DotLoc NameLoc
    /\ (isaTypeDecl VD = true ->
        MemberLookup (ProtocolType Elements) Name M = [PassBase VD]
        /\ createResultAST Implicit
             (MemberLookup (ProtocolType Elements) Name M) Base DotLoc NameLoc
           = AssertFail
        /\ createResultAST Implicit [classifyExtension VD] Base DotLoc NameLoc
           = Done (DotSyntaxBaseIgnoredExpr Base DotLoc
                     (DeclRefExpr VD NameLoc))).
Proof.
  intros Implicit Elements Name M VD Base DotLoc NameLoc Hfind.
  assert (E : MemberLookup (ProtocolType Elements) Name M =
              [contractCandidate VD])
    by (rewrite MemberLookup_step; cbn [stripLValue]; rewrite Hfind;
        reflexivity).
  rewrite E. unfold contractCandidate, memberExpr, classifyExtension.
  split.
  - destruct (isStaticFunc VD); reflexivity.
  - intros HT. rewrite HT.
    unfold isaTypeDecl in HT. unfold isStaticFunc.
    destruct VD as [a n k]. cbn [getDeclKind] in *.
    destruct k; try discriminate. repeat split; reflexivity.
Qed.

Lemma protocol_member_builds_witness :
  createResultAST 2
    (MemberLookup (ProtocolType [mkValueDecl 8 "Element" TypeDecl]) "Element"
                  moduleWithoutExtensions)
    (OpaqueExpr 0 (OtherType 0)) (ValidLoc 1) (ValidLoc 2) = AssertFail.
Proof.
  apply (protocol_member_builds 2 [mkValueDecl 8 "Element" TypeDecl] "Element"
           moduleWithoutExtensions (mkValueDecl 8 "Element" TypeDecl)
           (OpaqueExpr 0 (OtherType 0)) (ValidLoc 1) (ValidLoc 2) eq_refl).
  reflexivity.
Defined.

(* ================================================================= *)
(** ** When the list is rejected *)

(** X12. The lookup returns a list that [createResultAST] rejects for its
    kinds, that is a non-empty list that is neither a single candidate nor
    all declarations, exactly when the base type, looked through one lvalue,
    has a field candidate for the name and the extensions register at least
    one member for it under the name.  The builder then ends in a failed
    assertion, for every base expression. *)
Theorem lookup_rejected_iff_field_meets_extension :
  forall (BaseTy : TypeBase) (Name : Identifier) (M : Module),
    ((MemberLookup BaseTy Name M <> []
      /\ wellFormedResults (MemberLookup BaseTy Name M) = false)
     <-> (fieldCandidates (stripLValue BaseTy) Name <> []
          /\ lookupGlobalExtensionMethods M (stripLValue BaseTy) Name <> []))
    /\ (fieldCandidates (stripLValue BaseTy) Name <> [] ->
        lookupGlobalExtensionMethods M (stripLValue BaseTy) Name <> [] ->
        forall Implicit Base DotLoc NameLoc,
          createResultAST Implicit (MemberLookup BaseTy Name M)
                          Base DotLoc NameLoc = AssertFail).
Proof.
  intros BaseTy Name M.
  assert (Hmixed :
    fieldCandidates (stripLValue BaseTy) Name <> [] ->
    lookupGlobalExtensionMethods M (stripLValue BaseTy) Name <> [] ->
    exists F D Ds, MemberLookup BaseTy Name M = F :: D :: Ds
                   /\ isFieldForm F = true).
  { intros Hf He.
    assert (Hplain : reachesExtensions (stripLValue BaseTy) = true).
    { destruct (stripLValue BaseTy); try reflexivity;
        exfalso; apply Hf; reflexivity. }
    rewrite (MemberLookup_plain _ Name M Hplain).
    destruct (fieldCandidates_form (stripLValue BaseTy) Name) as [Hform Hlen].
    destruct (fieldCandidates (stripLValue BaseTy) Name) as [|F [|F' Fs]];
      [congruence | | cbn [List.length] in Hlen; lia].
    unfold extensionCandidates.
    destruct (lookupGlobalExtensionMethods M (stripLValue BaseTy) Name)
      as [|D Ds]; [congruence|].
    exists F, (classifyExtension D), (map classifyExtension Ds).
    split; [reflexivity|].
    cbn [forallb] in Hform. apply andb_true_iff in Hform. apply Hform. }
  split; [split|].
  - intros [Hne Hwf].
    destruct (results_well_formed_unless_mixed BaseTy Name M)
      as [H | [H | [Hf He]]]; [congruence | congruence |].
    split; [exact Hf|].
    intros Hnil. apply He. unfold extensionCandidates. rewrite Hnil.
    reflexivity.
  - intros [Hf He]. destruct (Hmixed Hf He) as [F [D [Ds [E HF]]]].
    rewrite E. split; [discriminate|].
    cbn [wellFormedResults forallb]. destruct F; try discriminate; reflexivity.
  - intros Hf He Implicit Base DotLoc NameLoc.
    destruct (Hmixed Hf He) as [F [D [Ds [E HF]]]].
    rewrite E. apply createResultAST_mixed.
    cbn [existsb]. rewrite HF. reflexivity.
Qed.

Lemma lookup_rejected_iff_field_meets_extension_witness :
  (MemberLookup (LValueType structS 0) "x" moduleExtendingStructs <> []
   /\ wellFormedResults
        (MemberLookup (LValueType structS 0) "x" moduleExtendingStructs)
      = false)
  /\ createResultAST 2
       (MemberLookup (LValueType structS 0) "x" moduleExtendingStructs)
       (OpaqueExpr 0 (LValueType structS 0)) (ValidLoc 1) (ValidLoc 2)
     = AssertFail.
Proof.
  destruct (lookup_rejected_iff_field_meets_extension
              (LValueType structS 0) "x" moduleExtendingStructs)
    as [[_ H1] H2].
  split.
  - apply H1. split; vm_compute; discriminate.
  - apply H2; vm_compute; discriminate.
Defined.

(* ================================================================= *)
(** ** Results already in the vector *)

(** What a call of [doIt] does to the results that are in the vector when
    it starts: the metatype case runs its reset and erase over the whole
    vector, the other cases leave them alone. *)
Definition priorResults (BaseTy : TypeBase) (Results : list MemberLookupResult)
    : list MemberLookupResult :=
  if isMetaTypeType BaseTy then dropThis Results else Results.

Lemma dropThis_app Rs Ss : dropThis (Rs ++ Ss) = dropThis Rs ++ dropThis Ss.
Proof. rewrite !dropThis_spec. apply typeValueFilter_spec_app. Qed.

Lemma dropThis_idempotent Rs : dropThis (dropThis Rs) = dropThis Rs.
Proof.
  rewrite !dropThis_spec.
  apply typeValueFilter_spec_ignored, typeValueFilter_spec_all_ignored.
Qed.

Lemma dropThis_priorResults T Rs : dropThis (priorResults T Rs) = dropThis Rs.
Proof.
  unfold priorResults. destruct (isMetaTypeType T);
    [apply dropThis_idempotent | reflexivity].
Qed.

Lemma dropThis_constructor Ty Name :
  dropThis (constructorCandidate Ty Name) = constructorCandidate Ty Name.
Proof.
  rewrite dropThis_spec.
  apply typeValueFilter_spec_ignored, constructorCandidate_ignored.
Qed.

Definition framed (Name : Identifier) (M : Module) (T : TypeBase) : Prop :=
  forall Rs,
    doItStep T Name M Rs = priorResults T Rs ++ doItStep T Name M []
    /\ doIt T Name M Rs =
       priorResults (stripLValue T) Rs ++ doIt T Name M [].

Lemma doItStep_framed Name M T :
  (forall MTT, T = MetaTypeType MTT ->
     forall Rs, doIt (getDeclaredType MTT) Name M Rs =
                priorResults (stripLValue (getDeclaredType MTT)) Rs ++
                doIt (getDeclaredType MTT) Name M []) ->
  forall Rs, doItStep T Name M Rs = priorResults T Rs ++ doItStep T Name M [].
Proof.
  intros IH Rs.
  destruct T as [Obj q | MTT | MT | Es | Fields | OneOf | n];
    cbn [doItStep priorResults isMetaTypeType];
    try (rewrite (doFieldsAndExtensions_app _ Name M Rs),
                 (doFieldsAndExtensions_app _ Name M []); reflexivity).
  - specialize (IH MTT eq_refl). cbn [app].
    rewrite (IH (Rs ++ _)), (IH (constructorCandidate _ _)).
    rewrite !dropThis_app, !dropThis_priorResults, dropThis_app.
    rewrite <- app_assoc. reflexivity.
  - reflexivity.
  - destruct (scanProtocol Es Name); [reflexivity|].
    rewrite (doFieldsAndExtensions_app _ Name M Rs),
            (doFieldsAndExtensions_app _ Name M []). reflexivity.
Qed.

Lemma doIt_framed Name M : forall BaseTy, framed Name M BaseTy.
Proof.
  intros BaseTy.
  induction BaseTy using TypeBase_mut with
    (P0 := fun TD => framed Name M (getDeclaredType TD))
    (P1 := fun _ => True)
    (P2 := fun _ => True);
    try exact I; try exact IHBaseTy;
    intros Rs; rewrite (doIt_step _ Name M Rs), (doIt_step _ Name M []);
    cbn [stripLValue].
  - split; [apply doItStep_framed; discriminate|].
    apply (proj1 (IHBaseTy Rs)).
  - assert (H : forall Rs0,
              doItStep (MetaTypeType TheType) Name M Rs0 =
              priorResults (MetaTypeType TheType) Rs0 ++
              doItStep (MetaTypeType TheType) Name M []).
    { apply doItStep_framed. intros MTT E. injection E as <-.
      intros Rs0. apply (IHBaseTy Rs0). }
    split; apply H.
  - split; apply doItStep_framed; discriminate.
  - split; apply doItStep_framed; discriminate.
  - split; apply doItStep_framed; discriminate.
  - split; apply doItStep_framed; discriminate.
  - split; apply doItStep_framed; discriminate.
Qed.

(** X13. A call of [doIt] on a vector that already holds results gives
    those results followed by what the lookup alone finds, with one
    exception that the code has by working on the whole vector: for a
    metatype, looked through one lvalue, the results that were there are
    put through the reset and erase too, so that candidates which passed
    the base come to ignore it and field candidates are lost.  Results that
    all ignore the base are never touched. *)
Theorem doIt_on_prior_results :
  forall (BaseTy : TypeBase) (Name : Identifier) (M : Module)
         (Results : list MemberLookupResult),
    doIt BaseTy Name M Results =
      (if isMetaTypeType (stripLValue BaseTy)
       then map IgnoreBase (declsOf Results) else Results)
      ++ MemberLookup BaseTy Name M
    /\ (forallb isIgnoreBase Results = true ->
        doIt BaseTy Name M Results = Results ++ MemberLookup BaseTy Name M).
Proof.
  intros BaseTy Name M Results.
  pose proof (proj2 (doIt_framed Name M BaseTy Results)) as E.
  unfold priorResults in E. rewrite dropThis_spec in E.
  split.
  - rewrite E, typeValueFilter_spec_decls. reflexivity.
  - intros H. rewrite E, (typeValueFilter_spec_ignored _ H).
    destruct (isMetaTypeType (stripLValue BaseTy)); reflexivity.
Qed.

Lemma doIt_on_prior_results_witness :
  doIt (MetaTypeType (mkNamedTypeDecl tupleX)) "x" moduleExtendingTuples
       [IgnoreBase extF]
  = [IgnoreBase extF] ++
    MemberLookup (MetaTypeType (mkNamedTypeDecl tupleX)) "x"
                 moduleExtendingTuples.
Proof.
  apply (doIt_on_prior_results (MetaTypeType (mkNamedTypeDecl tupleX)) "x"
           moduleExtendingTuples [IgnoreBase extF]).
  reflexivity.
Defined.
